(** * botogram: the updates fetcher and the components registry

    A shallow embedding of [botogram/updates.py] and
    [botogram/components.py], and the properties of their behaviour.

    Python integers are unbounded and are modelled by [Z]; timestamps
    (integer message dates, the float returned by [time.time()]) are
    compared exactly by Python and are modelled by rationals [Q];
    mutable objects ([self], the bot, the remote API) are threaded
    through explicitly. *)

From Stdlib Require Import ZArith QArith List String Ascii Bool Lia Lqa.
Import ListNotations.

Local Open Scope Z_scope.

(** ** Python list primitives *)

Module Py.

Section Lists.
Context {A : Type}.

Definition len (l : list A) : Z := Z.of_nat (List.length l).

(** [l[i]]: negative indices count from the end; outside
    [-len l <= i < len l] Python raises [IndexError] ([None] here). *)
Definition index (l : list A) (i : Z) : option A :=
    if (0 <=? i) && (i <? len l) then nth_error l (Z.to_nat i)
    else if (- len l <=? i) && (i <? 0) then nth_error l (Z.to_nat (len l + i))
    else None.

(** The bound of a slice: a negative bound counts from the end, and the
    result is clamped to [0 .. len l]. *)
Definition clamp (l : list A) (i : Z) : nat :=
    Z.to_nat (Z.min (len l) (if i <? 0 then Z.max 0 (len l + i) else i)).

(** [l[i:]] *)
Definition slice_from (l : list A) (i : Z) : list A := skipn (clamp l i) l.

(** [l[:i]] *)
Definition slice_to (l : list A) (i : Z) : list A := firstn (clamp l i) l.

(** [l[i:j]], as the spec writes [updates[0:3]]. *)
Definition slice (l : list A) (i j : Z) : list A :=
    firstn (clamp l j - clamp l i) (skipn (clamp l i) l).
End Lists.

(** [int(x / 2)] on an integer [x]: true division followed by truncation
    toward zero.  The float quotient is exact for [|x| < 2^53], which
    covers every list length. *)
Definition int_half (x : Z) : Z := Z.quot x 2.

(** [a < b] on timestamps. *)
Definition lt (a b : Q) : bool := negb (Qle_bool b a).

End Py.

(** ** Telegram objects ([botogram.objects], as far as the code reads them) *)

Record Message := { text : option string; date : Q }.
Record Update := { update_id : Z; message : Message }.

(** * botogram.updates *)

Module Updates.

(** What [bot.api.call] can do: return the parsed updates, raise
    [ValueError] (the response could not be parsed as [objects.Updates]),
    or raise another API error. *)
Inductive ApiExn := ValueError | APIError.
Inductive ApiResult := ApiReturn (updates : list Update) | ApiRaise (e : ApiExn).

(** The exceptions [fetch] can end with. *)
Inductive Exn :=
| FetchError                   (* raised by [fetch] itself *)
| Propagated (e : ApiExn)      (* an exception of the API call that [fetch] does not catch *)
| IndexError.                  (* [updates[to_check]] out of range *)

Inductive Outcome :=
| Return (to_process backlog : list Update)
| Raise (e : Exn)
| Diverge.                     (* the [while True] loop never breaks *)

Record UpdatesFetcher := {
  _last_id : Z;
  _started_at : Q;
  _backlog_processed : bool
}.

(** [UpdatesFetcher.__init__]; [now] is the value of [time.time()]. *)
Definition __init__ (process_backlog : bool) (now : Q) : UpdatesFetcher :=
  {| _last_id := -1;
     _started_at := now;
     _backlog_processed := if process_backlog then true else false |}.

(** The property [backlog_processed]. *)
Definition backlog_processed (self : UpdatesFetcher) : bool :=
  _backlog_processed self.

(** The two states of the spec's state machine. *)
Inductive State := AwaitingBacklogResolution | BacklogResolved.
Definition state (self : UpdatesFetcher) : State :=
  if backlog_processed self then BacklogResolved else AwaitingBacklogResolution.

(** *** The boundary-search loop *)

(** The local variables of [fetch] that the loop reads and writes,
    with the one attribute of [self] it writes. *)
Record Locals := {
  to_check : Z;
  check_chunk : Z;
  direction : Z;
  last : Z;
  processed : bool                (* self._backlog_processed *)
}.

(** Why the loop was left. *)
Inductive Break := Converged | BeforeFirst | PastEnd.

Inductive Step :=
| Continue (s : Locals)
| Broke (why : Break) (s : Locals)
| Raised.                         (* IndexError from [updates[to_check]] *)

(** One iteration of the [while True] body (lines 66-98). *)
Definition loop_body (updates : list Update) (started_at : Q) (s : Locals) : Step :=
  match Py.index updates (to_check s) with
  | None => Raised
  | Some update =>
      let direction :=
        if Py.lt (date (message update)) started_at then 1 else -1 in
      let check_chunk := Py.int_half (check_chunk s) in
      let check_chunk := if check_chunk =? 0 then 1 else check_chunk in
      if (direction =? 1) && (last s =? -1) && (check_chunk =? 1) then
        Broke Converged
          {| to_check := to_check s + 1; check_chunk := check_chunk;
             direction := direction; last := last s; processed := true |}
      else
        let last := direction in
        let to_check := to_check s + direction * check_chunk in
        if to_check <? 0 then
          Broke BeforeFirst
            {| to_check := to_check; check_chunk := check_chunk;
               direction := direction; last := last; processed := true |}
        else if to_check >=? Py.len updates then
          Broke PastEnd
            {| to_check := to_check; check_chunk := check_chunk;
               direction := direction; last := last; processed := processed s |}
        else
          Continue
            {| to_check := to_check; check_chunk := check_chunk;
               direction := direction; last := last; processed := processed s |}
  end.

(** [while True: body], iterated at most [fuel] times. *)
Fixpoint while_true (fuel : nat) (updates : list Update) (started_at : Q)
    (s : Locals) : option Step :=
  match fuel with
  | O => None
  | S fuel =>
      match loop_body updates started_at s with
      | Continue s' => while_true fuel updates started_at s'
      | r => Some r
      end
  end.

(** The locals on entry of the loop (lines 60-63). *)
Definition loop_entry (updates : list Update) (self : UpdatesFetcher) : Locals :=
  {| to_check := Py.len updates - 1;
     check_chunk := Py.len updates;
     direction := -1;
     last := 0;
     processed := _backlog_processed self |}.

(** Iterations that are enough for any batch ([loop_terminates] below). *)
Definition enough (updates : list Update) : nat := 3 * List.length updates + 3.

Definition set_last_id (self : UpdatesFetcher) (v : Z) : UpdatesFetcher :=
  {| _last_id := v; _started_at := _started_at self;
     _backlog_processed := _backlog_processed self |}.

Definition set_backlog_processed (self : UpdatesFetcher) (v : bool) : UpdatesFetcher :=
  {| _last_id := _last_id self; _started_at := _started_at self;
     _backlog_processed := v |}.

Section Fetch.
(** The remote side: [api_call r offset timeout] is
    [bot.api.call("getUpdates", {"offset": offset, "timeout": timeout},
    expect=objects.Updates)] on a remote in state [r]. *)
Context {Remote : Type}.
Variable api_call : Remote -> Z -> Z -> ApiResult * Remote.

(** [UpdatesFetcher.fetch] *)
Definition fetch (timeout : Z) (self : UpdatesFetcher) (r : Remote)
      : Outcome * UpdatesFetcher * Remote :=
    match api_call r (_last_id self + 1) timeout with
    | (ApiRaise ValueError, r) => (Raise FetchError, self, r)
    | (ApiRaise e, r) => (Raise (Propagated e), self, r)
    | (ApiReturn updates, r) =>
        let self :=
          match Py.index updates (-1) with
          | Some u => set_last_id self (update_id u)
          | None => self
          end in
        if _backlog_processed self then (Return updates [], self, r)
        else
          match updates with
          | [] => (Return [] [], set_backlog_processed self true, r)
          | _ =>
              match while_true (enough updates) updates (_started_at self)
                               (loop_entry updates self) with
              | Some (Broke _ s) =>
                  (Return (Py.slice_from updates (to_check s))
                          (Py.slice_to updates (to_check s)),
                   set_backlog_processed self (processed s), r)
              | Some Raised => (Raise IndexError, self, r)
              | _ => (Diverge, self, r)
              end
          end
    end.
End Fetch.

(** *** Polling: sequences of [fetch] calls *)

(** One call of the remote API, as seen from outside. *)
Record Request := { offset : Z; timeout : Z; reply : ApiResult }.

(** A remote that keeps the history of the calls it has served. *)
Definition logging {Remote : Type} (api_call : Remote -> Z -> Z -> ApiResult * Remote)
    (r : Remote * list Request) (offset timeout : Z)
    : ApiResult * (Remote * list Request) :=
  let '(res, r') := api_call (fst r) offset timeout in
  (res, (r', snd r ++ [{| offset := offset; timeout := timeout; reply := res |}])).

(** One poll cycle: the fetcher before and after the call of [fetch],
    and the history of the remote after it. *)
Record Round := {
  before : UpdatesFetcher;
  after : UpdatesFetcher;
  history : list Request
}.

(** The poll loop of the runtime: one [fetch] per timeout, an exception
    of one cycle being followed by the next cycle. *)
Fixpoint poll {Remote : Type} (api_call : Remote -> Z -> Z -> ApiResult * Remote)
    (timeouts : list Z) (self : UpdatesFetcher) (r : Remote * list Request)
    : list Round :=
  match timeouts with
  | [] => []
  | t :: timeouts =>
      let '(_, self', r') := fetch (logging api_call) t self r in
      {| before := self; after := self'; history := snd r' |}
        :: poll api_call timeouts self' r'
  end.

(** The update ids a remote has handed out. *)
Definition ids_of (res : ApiResult) : list Z :=
  match res with
  | ApiReturn updates => map update_id updates
  | ApiRaise _ => []
  end.

Definition seen (h : list Request) : list Z := flat_map (fun q => ids_of (reply q)) h.

(** [m] is the greatest element of [l]. *)
Definition greatest (m : Z) (l : list Z) : Prop := In m l /\ Forall (fun x => x <= m) l.

(** The precondition on the remote: every returned batch is in ascending
    [update_id] order (strictly or not) and lies above the requested
    offset. *)
Fixpoint ascending (l : list Z) : Prop :=
  match l with
  | [] => True
  | x :: l' => match l' with [] => True | y :: _ => x <= y end /\ ascending l'
  end.

Definition well_behaved {Remote : Type}
    (api_call : Remote -> Z -> Z -> ApiResult * Remote) : Prop :=
  forall r offset timeout updates r',
    api_call r offset timeout = (ApiReturn updates, r') ->
    ascending (map update_id updates) /\
    Forall (fun u => offset < update_id u) updates.

(** The rounds of a poll loop follow one another: each starts from
    the fetcher the one before has left. *)
Fixpoint chained (self : UpdatesFetcher) (rounds : list Round) : Prop :=
  match rounds with
  | [] => True
  | rd :: rounds => before rd = self /\ chained (after rd) rounds
  end.

(** What the cursor does in one round: [_last_id] does not decrease,
    the request of the round asks for the offset [_last_id + 1], and
    after a non-empty batch [_last_id] is the greatest id handed out so
    far. *)
Definition cursor_moves (rd : Round) : Prop :=
  _last_id (before rd) <= _last_id (after rd) /\
  exists h q,
    history rd = h ++ [q] /\
    offset q = _last_id (before rd) + 1 /\
    (ids_of (reply q) <> [] -> greatest (_last_id (after rd)) (seen (history rd))).

(** Between rounds, nothing handed out so far is above the cursor. *)
Definition cursor_covers (self : UpdatesFetcher) (h : list Request) : Prop :=
  Forall (fun x => x <= _last_id self) (seen h).

(** A remote that answers every call with the two updates that follow
    the requested offset. *)
Definition two_more (r : nat) (offset timeout : Z) : ApiResult * nat :=
  (ApiReturn [ {| update_id := offset + 1;
                  message := {| text := None; date := 0%Q |} |};
               {| update_id := offset + 2;
                  message := {| text := None; date := 0%Q |} |} ], S r).

(** A remote that answers with a given result, whatever is asked. *)
Definition answering (res : ApiResult) (r : unit) (offset timeout : Z)
    : ApiResult * unit := (res, r).

(** *** The reachable locals and the length of the search *)

(** What holds of the locals at the head of every iteration. *)
Definition in_bounds (updates : list Update) (s : Locals) : Prop :=
  0 <= to_check s < Py.len updates /\ 1 <= check_chunk s.

(** A bound on the iterations still to come: while the chunk is halved
    it decreases; once the step is 1 the probe walks forward, then
    backward, and never forward again. *)
Definition budget (updates : list Update) (s : Locals) : Z :=
  if 2 <=? check_chunk s then 2 * Py.len updates + 2 + check_chunk s
  else if last s =? -1 then to_check s + 1
  else 2 * Py.len updates + 1 - to_check s.

(** What each way out of the loop leaves behind. *)
Definition left_by (updates : list Update) (why : Break) (s : Locals) : Prop :=
  match why with
  | Converged => 0 < to_check s <= Py.len updates /\ processed s = true
  | BeforeFirst => to_check s < 0 /\ processed s = true
  | PastEnd => Py.len updates <= to_check s
  end.

(** An update with a given date. *)
Definition dated (i : Z) (d : Q) : Update :=
  {| update_id := i; message := {| text := None; date := d |} |}.

(** *** What the search has seen *)

(** The test of line 69 on one update. *)
Definition from_backlog (started_at : Q) (u : Update) : bool :=
  Py.lt (date (message u)) started_at.

(** At the head of every iteration: the probe is in the batch and at
    least a chunk (less one) away from its start, and after a backward
    move the update probed before it, one chunk further, was not from
    the backlog. *)
Definition probing (updates : list Update) (started_at : Q) (s : Locals) : Prop :=
  in_bounds updates s /\
  check_chunk s - 1 <= to_check s /\
  (last s = -1 ->
   exists u,
     to_check s + check_chunk s < Py.len updates /\
     Py.index updates (to_check s + check_chunk s) = Some u /\
     from_backlog started_at u = false).

(** When the newest update of the batch is not from the backlog: after
    the first iteration the probe is a chunk away from the end, until the
    step is 1. *)
Definition anchored (updates : list Update) (s : Locals) : Prop :=
  (last s = 0 /\ to_check s = Py.len updates - 1) \/
  (last s <> 0 /\
   (check_chunk s = 1 \/ to_check s + check_chunk s <= Py.len updates - 1)).

(** What the search has established when it is left. *)
Definition found (updates : list Update) (started_at : Q) (why : Break)
    (s : Locals) : Prop :=
  match why with
  | Converged =>
      (exists u, Py.index updates (to_check s - 1) = Some u /\
                 0 < to_check s /\
                 from_backlog started_at u = true) /\
      (exists q v, to_check s <= q <= to_check s + 2 /\
                   q < Py.len updates /\
                   Py.index updates q = Some v /\
                   from_backlog started_at v = false)
  | BeforeFirst =>
      to_check s = -1 /\
      exists u, Py.index updates 0 = Some u /\ from_backlog started_at u = false
  | PastEnd =>
      Py.len updates <= to_check s /\
      exists u, Py.index updates (Py.len updates - 1) = Some u /\
                from_backlog started_at u = true
  end.

(** A batch in chronological order, oldest first: no update is dated
    before an earlier one of the batch. *)
Fixpoint chronological (updates : list Update) : Prop :=
  match updates with
  | [] => True
  | u :: updates =>
      Forall (fun v => (date (message u) <= date (message v))%Q) updates /\
      chronological updates
  end.

End Updates.

(** * botogram.components *)

Module Components.

Local Open Scope string_scope.

(** ** Python strings *)

(** [s.split(sep)] for a one-character separator: every occurrence of
    [sep] ends a piece, so consecutive separators give empty pieces and
    the empty string gives one empty piece. *)
Fixpoint split (sep : ascii) (s : string) : list string :=
  match s with
  | EmptyString => [EmptyString]
  | String c s' =>
      if Ascii.eqb c sep then EmptyString :: split sep s'
      else match split sep s' with
           | [] => [String c EmptyString]
           | piece :: pieces => String c piece :: pieces
           end
  end.

(** No character of [s] is a space. *)
Fixpoint spaceless (s : string) : bool :=
  match s with
  | EmptyString => true
  | String c s' => negb (Ascii.eqb c " ") && spaceless s'
  end.

(** ** Values handed around by the runtime *)

Record Chat := { chat_id : Z }.

(** The callables of this module: the functions of component authors
    and the three closures built below. *)
Inductive Callable :=
| Def (name : string) (ident : nat)
    (* a function written by a component author *)
| Wrapped (func : Callable)
    (* [wrapped] of [add_message_contains_hook] *)
| Processor (func : Callable) (regex : string) (flags : Z) (multiple : bool)
    (* [processor] of [add_message_matches_hook] *)
| Command (name : string) (func : Callable).
    (* [__] of [base] in [__generate_commands_processors] *)

(** What a caller may pass as [func]. *)
Inductive Object := Fn (f : Callable) | Other (repr : string).

Definition callable (o : Object) : bool :=
  match o with Fn _ => true | Other _ => false end.

(** [f.__name__]; [functools.wraps(func)] gives a closure the name of
    the function it wraps. *)
Fixpoint __name__ (f : Callable) : string :=
  match f with
  | Def name _ => name
  | Wrapped func => __name__ func
  | Processor func _ _ _ => __name__ func
  | Command _ func => __name__ func
  end.

(** A positional argument of a call made through [bot._call]. *)
Inductive Arg :=
| AChat (c : Chat)
| AMessage (m : Message)
| AGroups (g : list (option string))      (* [result.groups()] *)
| AArgs (a : list string).                (* the arguments of a command *)

(** ** The collaborators: the regular expressions of [re] and the bot *)

(** A match object, as far as the code reads it. *)
Record Match := { span : nat * nat; groups : list (option string) }.

(** [re]: [compile] raises [re.error] ([None]) on an invalid pattern;
    [finditer] yields the non-overlapping matches from left to right. *)
Record Re := {
  pattern : Type;
  compile : string -> Z -> option pattern;
  finditer : pattern -> string -> list Match
}.

Definition IGNORECASE : Z := 2.

(** The bot, over the state [W] of everything its callbacks can touch:
    [_call bot func args w] runs [func] on [args];
    [_commands_re bot text] is [bot._commands_re.match(text)], giving
    [match.group(1)] when the text matches.  A callback that raises is
    not modelled: the closures below do not catch anything. *)
Record Bot (W : Type) := {
  _call : Callable -> list Arg -> W -> option bool * W;
  _commands_re : string -> option string
}.
Arguments _call {W}.
Arguments _commands_re {W}.

(** What a hook hands back: Python's [None], [True] or [False]. *)
Definition Handled := option bool.

(** ** The closures *)

Section Closures.
Context {W : Type}.
Variable re : Re.

(** [wrapped] (lines 55-58) *)
Definition wrapped (func : Callable) (bot : Bot W) (chat : Chat)
    (message : Message) (matches : list (option string)) (w : W) : Handled * W :=
  _call bot func [AChat chat; AMessage message] w.

(** The [for result in results] loop of [processor] (lines 76-82);
    [found] is the flag on entry. *)
Fixpoint for_results (func : Callable) (multiple : bool) (bot : Bot W)
    (chat : Chat) (message : Message) (results : list Match) (found : bool)
    (w : W) : bool * W :=
  match results with
  | [] => (found, w)
  | result :: results =>
      let found := true in
      let w := snd (_call bot func
                      [AChat chat; AMessage message; AGroups (groups result)] w) in
      if negb multiple then (found, w)
      else for_results func multiple bot chat message results found w
  end.

(** What running a closure gives: a value, or an exception. *)
Inductive Ran := Returned (v : Handled) (w : W) | ReError (w : W).

(** [processor] (lines 67-84) *)
Definition processor (func : Callable) (regex : string) (flags : Z)
    (multiple : bool) (bot : Bot W) (chat : Chat) (message : Message) (w : W)
    : Ran :=
  match text message with
  | None => Returned None w
  | Some t =>
      match compile re regex flags with
      | None => ReError w
      | Some compiled =>
          let results := finditer re compiled t in
          let '(found, w) :=
            for_results func multiple bot chat message results false w in
          Returned (Some found) w
      end
  end.

(** [__] in [base] (lines 113-129) *)
Definition base (name : string) (func : Callable) (bot : Bot W) (chat : Chat)
    (message : Message) (w : W) : Ran :=
  match text message with
  | None => Returned None w
  | Some t =>
      match _commands_re bot t with
      | None => Returned None w
      | Some group1 =>
          if negb (String.eqb group1 name) then Returned None w
          else
            let args := Py.slice_from (split " " t) 1 in
            let w := snd (_call bot func
                            [AChat chat; AMessage message; AArgs args] w) in
            Returned (Some true) w
      end
  end.

(** The code behind a closure that the runtime calls with
    [(bot, chat, message)]. *)
Definition body (f : Callable) : option (Bot W -> Chat -> Message -> W -> Ran) :=
  match f with
  | Processor func regex flags multiple => Some (processor func regex flags multiple)
  | Command name func => Some (base name func)
  | _ => None
  end.
End Closures.

(** ** The component *)

(** [HookDetails]; the owning component is referred to by its name. *)
Record HookDetails := { name : string; component : option string }.

(** [HookDetails.__init__] *)
Definition HookDetails__init__ : HookDetails := {| name := EmptyString; component := None |}.

Record Component := {
  component_name : string;
  __commands : list (string * Callable);    (* a dict, in insertion order *)
  __processors : list Callable;
  __before_processors : list Callable
}.

(** [Component.__init__]: [class_component_name] is the class attribute
    [component_name], [class_name] is [self.__class__.__name__]. *)
Definition __init__ (class_name : string) (class_component_name : option string)
    (name : option string) : Component :=
  {| component_name :=
       match name with
       | Some n => n
       | None => match class_component_name with
                 | Some n => n
                 | None => class_name
                 end
       end;
     __commands := [];
     __processors := [];
     __before_processors := [] |}.

(** The exceptions of the registration methods, with their messages. *)
Inductive Exn := ValueError (msg : string) | NameError (msg : string).

(** The names of the spec for them. *)
Definition InvalidHandler (e : Exn) : Prop := exists msg, e = ValueError msg.
Definition DuplicateCommand (e : Exn) : Prop := exists msg, e = NameError msg.

(** [name in d] *)
Fixpoint contains (d : list (string * Callable)) (name : string) : bool :=
  match d with
  | [] => false
  | (k, _) :: d => String.eqb k name || contains d name
  end.

(** [d[name]], [None] for a [KeyError] *)
Fixpoint getitem (d : list (string * Callable)) (name : string) : option Callable :=
  match d with
  | [] => None
  | (k, v) :: d => if String.eqb k name then Some v else getitem d name
  end.

(** [d[name] = v]: a present key keeps its place, a new one goes last. *)
Fixpoint setitem (d : list (string * Callable)) (name : string) (v : Callable)
    : list (string * Callable) :=
  match d with
  | [] => [(name, v)]
  | (k, v') :: d =>
      if String.eqb k name then (k, v) :: d else (k, v') :: setitem d name v
  end.

Definition set_processors (self : Component) (l : list Callable) : Component :=
  {| component_name := component_name self; __commands := __commands self;
     __processors := l; __before_processors := __before_processors self |}.

Definition set_before_processors (self : Component) (l : list Callable) : Component :=
  {| component_name := component_name self; __commands := __commands self;
     __processors := __processors self; __before_processors := l |}.

Definition set_commands (self : Component) (d : list (string * Callable)) : Component :=
  {| component_name := component_name self; __commands := d;
     __processors := __processors self; __before_processors := __before_processors self |}.

(** A method returns the component as it leaves it, and the exception
    it raised, if any. *)
Definition Method := Component -> Component * option Exn.

Definition add_before_processing_hook (func : Object) : Method := fun self =>
  match func with
  | Other _ => (self, Some (ValueError "A before processing hook must be callable"))
  | Fn f => (set_before_processors self (__before_processors self ++ [f]), None)
  end.

Definition add_process_message_hook (func : Object) : Method := fun self =>
  match func with
  | Other _ => (self, Some (ValueError "A message processor must be callable"))
  | Fn f => (set_processors self (__processors self ++ [f]), None)
  end.

Definition add_message_matches_hook (func : Object) (regex : string) (flags : Z)
    (multiple : bool) : Method := fun self =>
  match func with
  | Other _ => (self, Some (ValueError "A message matches hook must be callable"))
  | Fn f =>
      (set_processors self (__processors self ++ [Processor f regex flags multiple]),
       None)
  end.

Definition add_message_contains_hook (func : Object) (string : string)
    (ignore_case multiple : bool) : Method := fun self =>
  match func with
  | Other _ => (self, Some (ValueError "A message contains hook must be callable"))
  | Fn f =>
      let regex := "\b(" ++ string ++ ")\b" in
      let flags := if ignore_case then IGNORECASE else 0%Z in
      add_message_matches_hook (Fn (Wrapped f)) regex flags multiple self
  end.

Definition add_command (func : Object) (name : string) : Method := fun self =>
  if contains (__commands self) name then
    (self, Some (NameError ("The command /" ++ name ++ " already exists")))
  else
    match func with
    | Other _ => (self, Some (ValueError "A command processor must be callable"))
    | Fn f => (set_commands self (setitem (__commands self) name f), None)
    end.

Definition _get_commands (self : Component) : list (string * Callable) :=
  __commands self.

Definition __generate_commands_processors (self : Component) : list Callable :=
  map (fun '(name, func) => Command name func) (__commands self).

(** [__wrap_function]: the function comes back with its details set.
    The details are an attribute of the function object, written at
    every call; here they travel with the function in a pair. *)
Definition __wrap_function (self : Component) (func : Callable)
    : Callable * HookDetails :=
  let prefix :=
    if String.eqb (component_name self) EmptyString then EmptyString
    else component_name self ++ "::" in
  (func, {| name := prefix ++ __name__ func;
            component := Some (component_name self) |}).

Definition _get_hooks_chain (self : Component) : list (list (Callable * HookDetails)) :=
  let chain := [ __before_processors self;
                 __generate_commands_processors self;
                 __processors self ] in
  map (fun c => map (fun f => __wrap_function self f) c) chain.

(** ** Sequences of registrations *)

Inductive Registration :=
| AddBefore (func : Object)
| AddProcessMessage (func : Object)
| AddContains (func : Object) (string : string) (ignore_case multiple : bool)
| AddMatches (func : Object) (regex : string) (flags : Z) (multiple : bool)
| AddCommand (func : Object) (name : string).

Definition register (g : Registration) : Method :=
  match g with
  | AddBefore func => add_before_processing_hook func
  | AddProcessMessage func => add_process_message_hook func
  | AddContains func string ignore_case multiple =>
      add_message_contains_hook func string ignore_case multiple
  | AddMatches func regex flags multiple =>
      add_message_matches_hook func regex flags multiple
  | AddCommand func name => add_command func name
  end.

(** The set-up of a component: the registrations one after the other,
    an exception of one call being caught before the next; the result is
    the component with what each call raised. *)
Fixpoint register_all (gs : list Registration) (self : Component)
    : Component * list (option Exn) :=
  match gs with
  | [] => (self, [])
  | g :: gs =>
      let '(self, e) := register g self in
      let '(self, es) := register_all gs self in
      (self, e :: es)
  end.

(** What a sequence of registrations asks for, read off the sequence:
    the before hooks, the message hooks and the commands, in the order
    of the calls. *)
Definition before_hooks_of (gs : list Registration) : list Callable :=
  flat_map (fun g => match g with AddBefore (Fn f) => [f] | _ => [] end) gs.

Definition message_hooks_of (gs : list Registration) : list Callable :=
  flat_map (fun g =>
    match g with
    | AddProcessMessage (Fn f) => [f]
    | AddMatches (Fn f) regex flags multiple => [Processor f regex flags multiple]
    | AddContains (Fn f) string ignore_case multiple =>
        [Processor (Wrapped f) ("\b(" ++ string ++ ")\b")
                   (if ignore_case then IGNORECASE else 0%Z) multiple]
    | _ => []
    end) gs.

Definition commands_of (gs : list Registration) : list (string * Callable) :=
  flat_map (fun g => match g with AddCommand (Fn f) name => [(name, f)] | _ => [] end) gs.

Definition command_names (gs : list Registration) : list string :=
  flat_map (fun g => match g with AddCommand _ name => [name] | _ => [] end) gs.

(** ** Instances of the collaborators *)

(** A bot that only records the calls made through [_call]. *)
Definition Calls := list (Callable * list Arg).

Definition recording (commands_re : string -> option string) : Bot Calls :=
  {| _call := fun func args w => (None, (w ++ [(func, args)])%list);
     _commands_re := commands_re |}.

Fixpoint take_until (stop : ascii -> bool) (s : string) : string :=
  match s with
  | EmptyString => EmptyString
  | String c s' => if stop c then EmptyString else String c (take_until stop s')
  end.

Fixpoint drop_until (stop : ascii -> bool) (s : string) : string :=
  match s with
  | EmptyString => EmptyString
  | String c s' => if stop c then s else drop_until stop s'
  end.

(** Modelled from the spec: [bot._commands_re], which [bot.py] (not
    under src/) builds.  The first token of the text is a command line:
    a slash, the command name, and possibly a bot mention introduced by
    an at sign; the bare name is group 1. *)
Definition commands_re (t : string) : option string :=
  match t with
  | String "/" rest =>
      let token := take_until (Ascii.eqb " ") rest in
      let bare := take_until (Ascii.eqb "@") token in
      if String.eqb bare EmptyString then None else Some bare
  | _ => None
  end.

(** [re] restricted to literal patterns: non-empty, letters and digits
    only, no flags.  On these, [finditer] is the search for the pattern
    from left to right, resumed after the end of each occurrence, and a
    match has no groups. *)
Definition alnum (c : ascii) : bool :=
  let n := nat_of_ascii c in
  ((48 <=? n) && (n <=? 57) || (65 <=? n) && (n <=? 90) || (97 <=? n) && (n <=? 122))%nat.

Fixpoint all_alnum (s : string) : bool :=
  match s with
  | EmptyString => true
  | String c s' => alnum c && all_alnum s'
  end.

Fixpoint occurrences (pat : string) (skip pos : nat) (t : string) : list Match :=
  match t with
  | EmptyString => []
  | String _ t' =>
      match skip with
      | S k => occurrences pat k (S pos) t'
      | O =>
          if String.prefix pat t then
            {| span := (pos, (pos + String.length pat)%nat); groups := [] |}
              :: occurrences pat (String.length pat - 1) (S pos) t'
          else occurrences pat 0 (S pos) t'
      end
  end.

Definition literal : Re :=
  {| pattern := string;
     compile := fun regex flags =>
       if (flags =? 0)%Z && negb (String.eqb regex EmptyString) && all_alnum regex
       then Some regex else None;
     finditer := fun compiled t => occurrences compiled 0 0 t |}.

(** ** Splitting on whitespace, as the spec words it *)

Module Spec.

(** The whitespace of [str.split()]: space, tab, line feed, vertical
    tab, form feed, carriage return. *)
Definition whitespace (c : ascii) : bool :=
  let n := nat_of_ascii c in
  ((n =? 32) || (9 <=? n) && (n <=? 13))%nat.

(** The pieces between runs of whitespace. *)
Fixpoint words (s : string) : list string :=
  match s with
  | EmptyString => []
  | String c s' =>
      if whitespace c then words s'
      else
        match s' with
        | EmptyString => [String c EmptyString]
        | String c' _ =>
            if whitespace c' then String c EmptyString :: words s'
            else match words s' with
                 | [] => [String c EmptyString]
                 | w :: ws => String c w :: ws
                 end
        end
  end.

(** The text remaining after the command token. *)
Definition remaining (t : string) : string := drop_until whitespace t.

(** The argument list of the spec. *)
Definition arguments (t : string) : list string := words (remaining t).

End Spec.

(** ** More about the collaborators *)

(** A bot whose [_call] runs the closure of a contains hook by its
    code, which is what calling a Python function does. *)
Definition runs_wrapped {W : Type} (bot : Bot W) : Prop :=
  forall func chat message matches w,
    _call bot (Wrapped func) [AChat chat; AMessage message; AGroups matches] w
    = wrapped func bot chat message matches w.

(** A bot that runs the closures of contains hooks by their code and
    records the calls of every other callable. *)
Fixpoint run_call (func : Callable) (args : list Arg) (w : Calls)
    : option bool * Calls :=
  match func, args with
  | Wrapped f, [AChat chat; AMessage message; AGroups _] =>
      run_call f [AChat chat; AMessage message] w
  | _, _ => (None, (w ++ [(func, args)])%list)
  end.

Definition running (commands_re : string -> option string) : Bot Calls :=
  {| _call := run_call; _commands_re := commands_re |}.

(** What a registration passes as [func], and the command name it
    registers, if it is an [add_command]. *)
Definition func_of (g : Registration) : Object :=
  match g with
  | AddBefore func | AddProcessMessage func | AddContains func _ _ _
  | AddMatches func _ _ _ | AddCommand func _ => func
  end.

Definition command_of (g : Registration) : option string :=
  match g with
  | AddCommand _ name => Some name
  | _ => None
  end.

(** The registration has raised [NameError]. *)
Definition DuplicateCommand_raised (e : option Exn) : Prop :=
  exists msg, e = Some (NameError msg).




(** [re] restricted to the patterns of contains hooks on a word of
    letters and digits, without flags: a backslash, b, the word in
    parentheses, a backslash, b.  A match is an occurrence of the word
    with no word character next to it on either side, and its only
    group is the word. *)
Definition wordchar (c : ascii) : bool := alnum c || Ascii.eqb c "_".

Definition wordchar_at (n : nat) (t : string) : bool :=
  match String.get n t with
  | Some c => wordchar c
  | None => false
  end.

Fixpoint word_occurrences (word : string) (skip pos : nat) (after_word : bool)
    (t : string) : list Match :=
  match t with
  | EmptyString => []
  | String c t' =>
      match skip with
      | S k => word_occurrences word k (S pos) (wordchar c) t'
      | O =>
          if negb after_word && String.prefix word t
             && negb (wordchar_at (String.length word) t)
          then
            {| span := (pos, (pos + String.length word)%nat);
               groups := [Some word] |}
              :: word_occurrences word (String.length word - 1) (S pos)
                   (wordchar c) t'
          else word_occurrences word 0 (S pos) (wordchar c) t'
      end
  end.

Definition whole_words : Re :=
  {| pattern := string;
     compile := fun regex flags =>
       let n := String.length regex in
       let word := String.substring 3 (n - 6) regex in
       if (flags =? 0)%Z && (6 <? n)%nat && all_alnum word
          && String.eqb regex ("\b(" ++ word ++ ")\b")
       then Some word else None;
     finditer := fun compiled t => word_occurrences compiled 0 0 false t |}.

(** A hook fires on a message when the runtime's call of it returns
    true. *)
Definition fires {W : Type} (re : Re) (bot : Bot W) (hook : Callable)
    (chat : Chat) (message : Message) (w : W) : Prop :=
  exists run w',
    body re hook = Some run /\ run bot chat message w = Returned (Some true) w'.

End Components.

(** * Tactics *)

(** Turns the integer tests of the hypotheses into propositions. *)
Ltac ztests :=
  repeat match goal with
  | H : (_ <? _) = true |- _ => apply Z.ltb_lt in H
  | H : (_ <? _) = false |- _ => apply Z.ltb_ge in H
  | H : (_ <=? _) = true |- _ => apply Z.leb_le in H
  | H : (_ <=? _) = false |- _ => apply Z.leb_gt in H
  | H : (_ >=? _) = true |- _ => rewrite Z.geb_leb in H; apply Z.leb_le in H
  | H : (_ >=? _) = false |- _ => rewrite Z.geb_leb in H; apply Z.leb_gt in H
  | H : (_ =? _) = true |- _ => apply Z.eqb_eq in H
  | H : (_ =? _) = false |- _ => apply Z.eqb_neq in H
  | H : _ && _ = true |- _ => apply andb_true_iff in H; destruct H
  end.

(** Reduces the projections of explicit locals. *)
Ltac proj :=
  cbn [Updates.to_check Updates.check_chunk Updates.direction Updates.last
       Updates.processed].

(** * Properties of the Python primitives *)

Module PyFacts.

Section Lists.
Context {A : Type}.
Implicit Types l : list A.

Lemma len_nonneg l : 0 <= Py.len l.
Proof. unfold Py.len. lia. Qed.

Lemma len_cons (a : A) l : Py.len (a :: l) = Py.len l + 1.
Proof. unfold Py.len. cbn [List.length]. lia. Qed.

Lemma len_pos l : l <> [] -> 0 < Py.len l.
Proof. destruct l; [congruence | rewrite len_cons; pose proof (len_nonneg l); lia]. Qed.

Lemma index_in_range l i :
  0 <= i < Py.len l -> exists a, Py.index l i = Some a /\ In a l.
Proof.
  intros Hi. unfold Py.index.
  replace ((0 <=? i) && (i <? Py.len l)) with true
    by (symmetry; apply andb_true_iff; split; [apply Z.leb_le | apply Z.ltb_lt]; lia).
  destruct (nth_error l (Z.to_nat i)) eqn:E.
  - exists a. split; [reflexivity | eapply nth_error_In; eassumption].
  - apply nth_error_None in E. unfold Py.len in Hi. lia.
Qed.

(** [l[-1]] is the last element, and raises only on the empty list. *)
Lemma index_last l (d : A) :
  l <> [] -> Py.index l (-1) = Some (List.last l d).
Proof.
  intros Hl. pose proof (len_pos l Hl) as Hp. unfold Py.index.
  replace ((0 <=? -1) && (-1 <? Py.len l)) with false by reflexivity.
  replace ((- Py.len l <=? -1) && (-1 <? 0)) with true
    by (symmetry; apply andb_true_iff; split; [apply Z.leb_le; lia | reflexivity]).
  destruct (exists_last Hl) as (l' & a & ->).
  rewrite last_last.
  replace (Z.to_nat (Py.len (l' ++ [a]) + -1)) with (List.length l')
    by (unfold Py.len; rewrite length_app; cbn; lia).
  rewrite nth_error_app2 by lia. rewrite Nat.sub_diag. reflexivity.
Qed.

(** The default of [last] is not used on a list with an element. *)
Lemma last_indep l (d d' : A) : l <> [] -> List.last l d = List.last l d'.
Proof.
  induction l as [|a [|b l] IH]; intros H; [congruence | reflexivity |].
  change (List.last (b :: l) d = List.last (b :: l) d'). apply IH. discriminate.
Qed.

Lemma index_last_nil : Py.index (@nil A) (-1) = None.
Proof. reflexivity. Qed.

(** The two slices at one bound make up the list again. *)
Lemma slice_to_from l i : Py.slice_to l i ++ Py.slice_from l i = l.
Proof. apply firstn_skipn. Qed.

Lemma slice_from_past_end l i : Py.len l <= i -> Py.slice_from l i = [].
Proof.
  intros Hi. unfold Py.slice_from, Py.clamp. pose proof (len_nonneg l).
  replace (i <? 0) with false by (symmetry; apply Z.ltb_ge; lia).
  rewrite Z.min_l by lia. unfold Py.len. rewrite Nat2Z.id. apply skipn_all.
Qed.

Lemma slice_to_past_end l i : Py.len l <= i -> Py.slice_to l i = l.
Proof.
  intros Hi. rewrite <- (slice_to_from l i) at 2.
  rewrite slice_from_past_end by assumption. now rewrite app_nil_r.
Qed.

(** A negative bound never leaves the slice to the end empty. *)
Lemma slice_from_negative l i : l <> [] -> i < 0 -> Py.slice_from l i <> [].
Proof.
  intros Hl Hi E. pose proof (len_pos l Hl) as Hp.
  apply (f_equal (@List.length A)) in E. unfold Py.slice_from in E.
  rewrite length_skipn in E. cbn in E. unfold Py.clamp in E.
  replace (i <? 0) with true in E by (symmetry; apply Z.ltb_lt; lia).
  unfold Py.len in *. lia.
Qed.

Lemma slice_from_nonneg l i :
  0 <= i -> Py.slice_from l i = skipn (Z.to_nat i) l.
Proof.
  intros Hi. unfold Py.slice_from, Py.clamp.
  replace (i <? 0) with false by (symmetry; apply Z.ltb_ge; lia).
  destruct (Z.le_gt_cases i (Py.len l)).
  - now rewrite Z.min_r by lia.
  - rewrite Z.min_l by lia. unfold Py.len in *. rewrite Nat2Z.id.
    rewrite !skipn_all2; [reflexivity | lia | lia].
Qed.

Lemma slice_to_nonneg l i :
  0 <= i -> Py.slice_to l i = firstn (Z.to_nat i) l.
Proof.
  intros Hi. unfold Py.slice_to, Py.clamp.
  replace (i <? 0) with false by (symmetry; apply Z.ltb_ge; lia).
  destruct (Z.le_gt_cases i (Py.len l)).
  - now rewrite Z.min_r by lia.
  - rewrite Z.min_l by lia. unfold Py.len in *. rewrite Nat2Z.id.
    rewrite !firstn_all2; [reflexivity | lia | lia].
Qed.
End Lists.

(** [Py.lt] decides the order of the rationals. *)
Lemma lt_true a b : Py.lt a b = true <-> (a < b)%Q.
Proof.
  unfold Py.lt. rewrite negb_true_iff, <- not_true_iff_false, Qle_bool_iff.
  split; [apply Qnot_le_lt | apply Qlt_not_le].
Qed.

Lemma lt_false a b : Py.lt a b = false <-> (b <= a)%Q.
Proof.
  unfold Py.lt. rewrite negb_false_iff. apply Qle_bool_iff.
Qed.

(** On a list length, [int(x / 2)] is the floor of the half. *)
Lemma int_half_nonneg x : 0 <= x -> Py.int_half x = x / 2.
Proof. intros. unfold Py.int_half. apply Z.quot_div_nonneg; lia. Qed.

End PyFacts.

(** * Properties of the updates fetcher *)

Module UpdatesFacts.
Import Updates.

Lemma while_true_step fuel updates started_at s :
  while_true (S fuel) updates started_at s =
  match loop_body updates started_at s with
  | Continue s' => while_true fuel updates started_at s'
  | r => Some r
  end.
Proof. reflexivity. Qed.

(** More iterations do not change a result. *)
Lemma while_true_more fuel fuel' updates started_at s r :
  while_true fuel updates started_at s = Some r ->
  (fuel <= fuel')%nat ->
  while_true fuel' updates started_at s = Some r.
Proof.
  revert fuel' s. induction fuel as [|fuel IH]; intros fuel' s H Hle; [discriminate|].
  destruct fuel' as [|fuel']; [lia|].
  rewrite while_true_step in *.
  destruct (loop_body updates started_at s); auto.
  apply IH; [assumption | lia].
Qed.

(** The loop never ends on [Continue]. *)
Lemma while_true_not_continue fuel updates started_at s s' :
  while_true fuel updates started_at s <> Some (Continue s').
Proof.
  revert s. induction fuel as [|fuel IH]; intros s; [discriminate|].
  rewrite while_true_step.
  destruct (loop_body updates started_at s); [apply IH | discriminate | discriminate].
Qed.

Lemma enough_succ updates : exists k, enough updates = S k.
Proof. exists (3 * List.length updates + 2)%nat. unfold enough. lia. Qed.

(** The halved chunk. *)
Lemma next_chunk c :
  1 <= c ->
  let h := Py.int_half c in
  let c' := if h =? 0 then 1 else h in
  1 <= c' /\ (c <= 3 -> c' = 1) /\ (2 <= c -> c' < c) /\ (c' = 1 -> c <= 3).
Proof.
  intros Hc h c'. subst h c'. rewrite PyFacts.int_half_nonneg by lia.
  destruct (c / 2 =? 0) eqn:E; ztests; repeat split; intros;
    Z.to_euclidean_division_equations; lia.
Qed.

(** One iteration, from locals in bounds: there is an update to look
    at, and the body continues only with locals in bounds and a smaller
    budget. *)
Lemma loop_body_in_bounds updates started_at s :
  in_bounds updates s ->
  match loop_body updates started_at s with
  | Continue s' =>
      in_bounds updates s' /\ budget updates s' < budget updates s /\
      processed s' = processed s
  | Broke why s' => left_by updates why s'
  | Raised => False
  end.
Proof.
  intros [Htc Hc]. unfold loop_body.
  destruct (PyFacts.index_in_range updates (to_check s) Htc) as (u & -> & _).
  pose proof (next_chunk (check_chunk s) Hc) as (H1 & H2 & H3 & H4).
  cbv zeta in H1, H2, H3, H4.
  set (c' := if Py.int_half (check_chunk s) =? 0 then 1
             else Py.int_half (check_chunk s)) in *.
  destruct (Py.lt (date (message u)) started_at).
  - (* backlog: forward *)
    destruct ((1 =? 1) && (last s =? -1) && (c' =? 1)) eqn:Ec.
    + ztests. unfold left_by; proj. repeat split; lia || reflexivity.
    + replace (to_check s + 1 * c' <? 0) with false
        by (symmetry; apply Z.ltb_ge; lia).
      destruct (to_check s + 1 * c' >=? Py.len updates) eqn:Eo; ztests.
      * unfold left_by; proj. lia.
      * unfold in_bounds, budget; proj.
        repeat split; try lia.
        replace (1 =? -1) with false by reflexivity.
        destruct (2 <=? c') eqn:E2, (2 <=? check_chunk s) eqn:E3; ztests; try lia.
        assert (Hc1 : c' = 1) by lia.
        assert (Hl : last s <> -1).
        { intros E. rewrite E, Hc1 in Ec. discriminate. }
        replace (last s =? -1) with false by (symmetry; apply Z.eqb_neq; lia).
        lia.
  - (* live: backward *)
    replace ((-1 =? 1) && (last s =? -1) && (c' =? 1)) with false by reflexivity.
    destruct (to_check s + -1 * c' <? 0) eqn:Eu; ztests.
    + unfold left_by; proj. repeat split; lia || reflexivity.
    + replace (to_check s + -1 * c' >=? Py.len updates) with false
        by (symmetry; rewrite Z.geb_leb; apply Z.leb_gt; lia).
      unfold in_bounds, budget; proj.
      repeat split; try lia.
      replace (-1 =? -1) with true by reflexivity.
      destruct (2 <=? c') eqn:E2, (2 <=? check_chunk s) eqn:E3; ztests; try lia.
      destruct (last s =? -1); lia.
Qed.

(** From locals in bounds the loop is left within [budget] iterations. *)
Lemma loop_terminates_from fuel updates started_at s :
  in_bounds updates s ->
  budget updates s <= Z.of_nat fuel ->
  exists why s',
    while_true fuel updates started_at s = Some (Broke why s') /\
    left_by updates why s'.
Proof.
  revert s. induction fuel as [|fuel IH]; intros s Hb Hf.
  - exfalso. destruct Hb as [Htc Hc]. unfold budget in Hf.
    destruct (2 <=? check_chunk s), (last s =? -1); lia.
  - rewrite while_true_step.
    pose proof (loop_body_in_bounds updates started_at s Hb) as Hs.
    destruct (loop_body updates started_at s) as [s'|why s'|].
    + destruct Hs as (Hb' & Hlt & _). apply IH; [assumption | lia].
    + eauto.
    + contradiction.
Qed.

Lemma loop_entry_in_bounds updates self :
  updates <> [] -> in_bounds updates (loop_entry updates self).
Proof.
  intros H. apply PyFacts.len_pos in H. unfold in_bounds. cbn. lia.
Qed.

Lemma loop_entry_budget updates self :
  updates <> [] -> budget updates (loop_entry updates self) <= Z.of_nat (enough updates).
Proof.
  intros H. apply PyFacts.len_pos in H. unfold budget, enough, loop_entry; proj.
  replace (0 =? -1) with false by reflexivity.
  unfold Py.len in *. destruct (2 <=? _); lia.
Qed.

(** Whatever ends the loop from locals in bounds is a [break], with
    the probe where that [break] leaves it. *)
Lemma while_true_left_by fuel updates started_at s r :
  in_bounds updates s ->
  while_true fuel updates started_at s = Some r ->
  exists why s', r = Broke why s' /\ left_by updates why s'.
Proof.
  revert s. induction fuel as [|fuel IH]; intros s Hb H; [discriminate|].
  rewrite while_true_step in H.
  pose proof (loop_body_in_bounds updates started_at s Hb) as Hs.
  destruct (loop_body updates started_at s) as [s'|why s'|].
  - destruct Hs as (Hb' & _). eauto.
  - injection H as <-. eauto.
  - contradiction.
Qed.

(** [fetch] on a non-empty batch while the backlog is not resolved. *)
Lemma fetch_searches {Remote : Type} (api_call : Remote -> Z -> Z -> ApiResult * Remote)
    timeout self r u updates r' :
  api_call r (_last_id self + 1) timeout = (ApiReturn (u :: updates), r') ->
  _backlog_processed self = false ->
  fetch api_call timeout self r =
  let batch := u :: updates in
  let self1 := set_last_id self (update_id (List.last batch u)) in
  match while_true (enough batch) batch (_started_at self) (loop_entry batch self) with
  | Some (Broke _ s) =>
      (Return (Py.slice_from batch (to_check s)) (Py.slice_to batch (to_check s)),
       set_backlog_processed self1 (processed s), r')
  | Some Raised => (Raise IndexError, self1, r')
  | _ => (Diverge, self1, r')
  end.
Proof.
  intros Hapi Hbp. unfold fetch. rewrite Hapi.
  rewrite (PyFacts.index_last (u :: updates) u) by discriminate.
  cbn [set_last_id _backlog_processed _started_at]. rewrite Hbp.
  reflexivity.
Qed.

(** ** Termination of the boundary search *)

(** C10. On every non-empty batch, whatever the dates and the start
    time, the boundary-search loop is left after finitely many
    iterations (at most [enough updates], three times the length of the
    batch plus three), and it is left by one of its three [break]s:
    the convergence test, the probe below index 0, or the probe at or
    past the length of the batch.  No iteration raises. *)
Theorem loop_terminates (updates : list Update) (started_at : Q)
    (self : UpdatesFetcher) :
  updates <> [] ->
  exists (n : nat) (why : Break) (s : Locals),
    (n <= enough updates)%nat /\
    (forall fuel, (n <= fuel)%nat ->
       while_true fuel updates started_at (loop_entry updates self)
       = Some (Broke why s)) /\
    match why with
    | Converged => processed s = true
    | BeforeFirst => to_check s < 0
    | PastEnd => Py.len updates <= to_check s
    end.
Proof.
  intros Hne.
  destruct (loop_terminates_from (enough updates) updates started_at
              (loop_entry updates self)
              (loop_entry_in_bounds updates self Hne)
              (loop_entry_budget updates self Hne)) as (why & s & Hrun & Hleft).
  exists (enough updates), why, s. split; [lia|]. split.
  - intros fuel Hfuel. eapply while_true_more; eassumption.
  - destruct why; cbn in Hleft; tauto.
Qed.

Lemma loop_terminates_witness :
  exists (n : nat) (why : Break) (s : Locals),
    (n <= 6)%nat /\
    (forall fuel, (n <= fuel)%nat ->
       while_true fuel [dated 1 0] 0 (loop_entry [dated 1 0] (__init__ false 0))
       = Some (Broke why s)) /\
    match why with
    | Converged => processed s = true
    | BeforeFirst => to_check s < 0
    | PastEnd => 1 <= to_check s
    end.
Proof.
  apply (loop_terminates [dated 1 0] 0 (__init__ false 0)). discriminate.
Defined.

(** X16. [fetch] always comes back, and with a pair of lists unless the call
    of the remote API has raised: the loop neither runs forever nor
    reads outside the batch. *)
Lemma fetch_returns {Remote : Type} (api_call : Remote -> Z -> Z -> ApiResult * Remote)
    timeout self (r : Remote) :
  match fst (api_call r (_last_id self + 1) timeout) with
  | ApiReturn _ =>
      exists to_process backlog,
        fst (fst (fetch api_call timeout self r)) = Return to_process backlog
  | ApiRaise ValueError => fst (fst (fetch api_call timeout self r)) = Raise FetchError
  | ApiRaise e => fst (fst (fetch api_call timeout self r)) = Raise (Propagated e)
  end.
Proof.
  unfold fetch.
  destruct (api_call r (_last_id self + 1) timeout) as [[updates|[|]] r'];
    cbn [fst]; try reflexivity.
  match goal with
  | |- context [if ?b then _ else _] => destruct b eqn:Hbp
  end; [cbn; eauto|].
  destruct updates as [|u updates]; [cbn; eauto|].
  match goal with
  | |- context [while_true ?n ?l ?t ?s] =>
      destruct (loop_terminates_from n l t s) as (why & s' & -> & _)
  end.
  - apply loop_entry_in_bounds. discriminate.
  - apply (loop_entry_budget (u :: updates)). discriminate.
  - cbn; eauto.
Qed.

(** ** Batches on one side of the start time *)

(** With only backlog in the batch, the first iteration moves the probe
    past the end. *)
Lemma loop_all_backlog updates started_at self :
  updates <> [] ->
  Forall (fun u => (date (message u) < started_at)%Q) updates ->
  exists s,
    loop_body updates started_at (loop_entry updates self) = Broke PastEnd s /\
    Py.len updates <= to_check s /\
    processed s = _backlog_processed self.
Proof.
  intros Hne Hall. pose proof (PyFacts.len_pos updates Hne) as Hp.
  unfold loop_body.
  destruct (PyFacts.index_in_range updates (to_check (loop_entry updates self)))
    as (u & -> & Hin); [cbn; lia|].
  rewrite Forall_forall in Hall. apply Hall, PyFacts.lt_true in Hin. rewrite Hin.
  pose proof (next_chunk (Py.len updates) ltac:(lia)) as (H1 & _).
  cbv zeta in H1.
  unfold loop_entry; proj.
  set (c' := if Py.int_half (Py.len updates) =? 0 then 1
             else Py.int_half (Py.len updates)) in *.
  replace ((1 =? 1) && (0 =? -1) && (c' =? 1)) with false by reflexivity.
  replace (Py.len updates - 1 + 1 * c' <? 0) with false
    by (symmetry; apply Z.ltb_ge; lia).
  replace (Py.len updates - 1 + 1 * c' >=? Py.len updates) with true
    by (symmetry; rewrite Z.geb_leb; apply Z.leb_le; lia).
  eexists. split; [reflexivity|]. proj. split; [lia | reflexivity].
Qed.

(** With no backlog in the batch, the probe walks down to below the
    first index. *)
Lemma loop_all_live fuel updates started_at s :
  Forall (fun u => ~ (date (message u) < started_at)%Q) updates ->
  in_bounds updates s ->
  to_check s < Z.of_nat fuel ->
  exists s', while_true fuel updates started_at s = Some (Broke BeforeFirst s').
Proof.
  intros Hall. revert s. induction fuel as [|fuel IH]; intros s Hb Hf.
  - destruct Hb. lia.
  - rewrite while_true_step.
    pose proof (loop_body_in_bounds updates started_at s Hb) as Hs.
    destruct Hb as [Htc Hc]. unfold loop_body in *.
    destruct (PyFacts.index_in_range updates (to_check s) Htc) as (u & Hu & Hin).
    rewrite Hu in *.
    rewrite Forall_forall in Hall. apply Hall in Hin.
    destruct (Py.lt (date (message u)) started_at) eqn:El;
      [apply PyFacts.lt_true in El; contradiction|].
    pose proof (next_chunk (check_chunk s) Hc) as (H1 & _). cbv zeta in H1.
    set (c' := if Py.int_half (check_chunk s) =? 0 then 1
               else Py.int_half (check_chunk s)) in *.
    replace ((-1 =? 1) && (last s =? -1) && (c' =? 1)) with false in * by reflexivity.
    destruct (to_check s + -1 * c' <? 0) eqn:Eu; [eauto|].
    replace (to_check s + -1 * c' >=? Py.len updates) with false in *
      by (symmetry; rewrite Z.geb_leb; apply Z.leb_gt; lia).
    destruct Hs as (Hb' & _). apply IH; [assumption | proj; lia].
Qed.

(** C1 (amended). For every non-empty batch fetched while the fetcher
    is in AwaitingBacklogResolution, if every update's message date is
    strictly less than the fetcher's start time, then [fetch] returns an
    empty live list and the entire batch as backlog, and the fetcher
    stays in AwaitingBacklogResolution ([backlog_processed] is still
    false): the probe has moved past the end of the batch, which ends
    the search without resolving the backlog. *)
Theorem fetch_all_backlog {Remote : Type}
    (api_call : Remote -> Z -> Z -> ApiResult * Remote)
    (timeout : Z) (self : UpdatesFetcher) (r r' : Remote) (updates : list Update) :
  api_call r (_last_id self + 1) timeout = (ApiReturn updates, r') ->
  updates <> [] ->
  state self = AwaitingBacklogResolution ->
  Forall (fun u => (date (message u) < _started_at self)%Q) updates ->
  exists self',
    fetch api_call timeout self r = (Return [] updates, self', r') /\
    state self' = AwaitingBacklogResolution /\
    backlog_processed self' = false.
Proof.
  intros Hapi Hne Hst Hall.
  assert (Hbp : _backlog_processed self = false).
  { unfold state, backlog_processed in Hst. destruct (_backlog_processed self);
      [discriminate | reflexivity]. }
  destruct updates as [|u updates]; [congruence|].
  rewrite (fetch_searches api_call timeout self r u updates r' Hapi Hbp). cbv zeta.
  destruct (loop_all_backlog (u :: updates) (_started_at self) self Hne Hall)
    as (s & Hs & Hpast & Hproc).
  destruct (enough_succ (u :: updates)) as (k & ->).
  rewrite while_true_step, Hs.
  rewrite PyFacts.slice_from_past_end, PyFacts.slice_to_past_end by assumption.
  eexists. split; [reflexivity|].
  unfold state, backlog_processed. cbn. rewrite Hproc, Hbp. split; reflexivity.
Qed.

(** C1, at a batch of one update dated 0 and a fetcher started at 1. *)
Lemma fetch_all_backlog_witness :
  exists self',
    fetch (answering (ApiReturn [dated 7 0])) 1 (__init__ false 1) tt
    = (Return [] [dated 7 0], self', tt) /\
    state self' = AwaitingBacklogResolution /\
    backlog_processed self' = false.
Proof.
  apply (fetch_all_backlog (answering (ApiReturn [dated 7 0])) 1
           (__init__ false 1) tt tt [dated 7 0]).
  - reflexivity.
  - discriminate.
  - reflexivity.
  - repeat constructor.
Defined.

(** C1 as the spec states it fails: a batch of one update dated 0,
    fetched by a fetcher started at 1 that awaits the resolution of the
    backlog, is returned whole as backlog with an empty live list, and
    the fetcher is not in BacklogResolved afterwards. *)
Lemma fetch_all_backlog_not_resolved :
  let self := __init__ false 1 in
  let batch := [dated 7 0] in
  state self = AwaitingBacklogResolution /\
  Forall (fun u => (date (message u) < _started_at self)%Q) batch /\
  exists self',
    fetch (answering (ApiReturn batch)) 1 self tt = (Return [] batch, self', tt) /\
    state self' <> BacklogResolved /\
    backlog_processed self' <> true.
Proof.
  cbv zeta. split; [reflexivity|]. split; [repeat constructor|].
  eexists. split; [vm_compute; reflexivity|]. split; discriminate.
Qed.

(** The result of the loop does not depend on the iterations allowed. *)
Lemma while_true_unique fuel1 fuel2 updates started_at s r1 r2 :
  while_true fuel1 updates started_at s = Some r1 ->
  while_true fuel2 updates started_at s = Some r2 ->
  r1 = r2.
Proof.
  intros H1 H2.
  apply (while_true_more _ (Nat.max fuel1 fuel2)) in H1; [|lia].
  apply (while_true_more _ (Nat.max fuel1 fuel2)) in H2; [|lia].
  congruence.
Qed.

(** [fetch] when the search ends with the probe before the first
    index. *)
Lemma fetch_probe_before_first {Remote : Type}
    (api_call : Remote -> Z -> Z -> ApiResult * Remote)
    timeout self r r' updates fuel s :
  api_call r (_last_id self + 1) timeout = (ApiReturn updates, r') ->
  updates <> [] ->
  _backlog_processed self = false ->
  while_true fuel updates (_started_at self) (loop_entry updates self)
  = Some (Broke BeforeFirst s) ->
  exists live backlog self',
    fetch api_call timeout self r = (Return live backlog, self', r') /\
    state self' = BacklogResolved /\
    live <> [] /\
    backlog ++ live = updates.
Proof.
  intros Hapi Hne Hbp Hrun.
  pose proof (loop_entry_in_bounds updates self Hne) as Hb.
  destruct (while_true_left_by _ _ _ _ _ Hb Hrun) as (why & s' & E & Hleft).
  injection E as <- <-. destruct Hleft as [Hneg Hproc].
  destruct (loop_terminates_from (enough updates) updates (_started_at self)
              (loop_entry updates self) Hb (loop_entry_budget updates self Hne))
    as (why & s' & Hrun' & _).
  pose proof (while_true_unique _ _ _ _ _ _ _ Hrun Hrun') as E.
  injection E as <- <-.
  destruct updates as [|u updates]; [congruence|].
  rewrite (fetch_searches api_call timeout self r u updates r' Hapi Hbp). cbv zeta.
  rewrite Hrun'.
  do 3 eexists. split; [reflexivity|]. split; [|split].
  - unfold state, backlog_processed. cbn. now rewrite Hproc.
  - apply PyFacts.slice_from_negative; [discriminate | assumption].
  - apply PyFacts.slice_to_from.
Qed.

(** C2 (amended). During the boundary search on a non-empty batch,
    whenever the probe index falls before the first index (below 0), the
    fetcher goes to BacklogResolved, and what [fetch] returns splits the
    batch in two (the backlog followed by the live updates is the batch)
    with a live list that is not empty.  In particular, for a batch in
    which every update's date is at or after the start time, the probe
    does fall before the first index, the fetcher goes to
    BacklogResolved and the returned live list is not empty. *)
Theorem fetch_before_first {Remote : Type}
    (api_call : Remote -> Z -> Z -> ApiResult * Remote)
    (timeout : Z) (self : UpdatesFetcher) (r r' : Remote) (updates : list Update) :
  api_call r (_last_id self + 1) timeout = (ApiReturn updates, r') ->
  updates <> [] ->
  state self = AwaitingBacklogResolution ->
  let resolved_with_live :=
    exists live backlog self',
      fetch api_call timeout self r = (Return live backlog, self', r') /\
      state self' = BacklogResolved /\
      live <> [] /\
      backlog ++ live = updates in
  let probe_before_first :=
    exists fuel s,
      while_true fuel updates (_started_at self) (loop_entry updates self)
      = Some (Broke BeforeFirst s) /\ to_check s < 0 in
  (probe_before_first -> resolved_with_live) /\
  (Forall (fun u => ~ (date (message u) < _started_at self)%Q) updates ->
   probe_before_first /\ resolved_with_live).
Proof.
  intros Hapi Hne Hst.
  assert (Hbp : _backlog_processed self = false).
  { unfold state, backlog_processed in Hst. destruct (_backlog_processed self);
      [discriminate | reflexivity]. }
  cbv zeta.
  assert (HA : (exists fuel s,
      while_true fuel updates (_started_at self) (loop_entry updates self)
      = Some (Broke BeforeFirst s) /\ to_check s < 0) ->
    exists live backlog self',
      fetch api_call timeout self r = (Return live backlog, self', r') /\
      state self' = BacklogResolved /\ live <> [] /\ backlog ++ live = updates).
  { intros (fuel & s & Hrun & _).
    eapply fetch_probe_before_first; eassumption. }
  split; [exact HA|].
  intros Hall.
  assert (HP : exists fuel s,
      while_true fuel updates (_started_at self) (loop_entry updates self)
      = Some (Broke BeforeFirst s) /\ to_check s < 0).
  { pose proof (loop_entry_in_bounds updates self Hne) as Hb.
    destruct (loop_all_live (enough updates) updates (_started_at self)
                (loop_entry updates self) Hall Hb) as (s & Hrun).
    - unfold enough, loop_entry, Py.len; proj. lia.
    - exists (enough updates), s. split; [assumption|].
      destruct (while_true_left_by _ _ _ _ _ Hb Hrun) as (why & s' & E & Hleft).
      injection E as <- <-. apply Hleft. }
  split; [exact HP | exact (HA HP)].
Qed.

(** C2, at a batch of two updates dated 0 and a fetcher started at 0. *)
Lemma fetch_before_first_witness :
  (exists fuel s,
     while_true fuel [dated 7 0; dated 8 0] 0
       (loop_entry [dated 7 0; dated 8 0] (__init__ false 0))
     = Some (Broke BeforeFirst s) /\ to_check s < 0) /\
  exists live backlog self',
    fetch (answering (ApiReturn [dated 7 0; dated 8 0])) 1 (__init__ false 0) tt
    = (Return live backlog, self', tt) /\
    state self' = BacklogResolved /\
    live <> [] /\
    backlog ++ live = [dated 7 0; dated 8 0].
Proof.
  refine (proj2 (fetch_before_first
                   (answering (ApiReturn [dated 7 0; dated 8 0])) 1
                   (__init__ false 0) tt tt [dated 7 0; dated 8 0]
                   eq_refl _ eq_refl) _).
  - discriminate.
  - repeat constructor; discriminate.
Defined.

(** C2 as the spec states it fails: a batch of two updates, both dated
    at the start time of a fetcher that awaits the resolution of the
    backlog, sends the probe below index 0, and [fetch] returns the last
    update as live and only the first one as backlog. *)
Lemma fetch_before_first_returns_live :
  let self := __init__ false 0 in
  let batch := [dated 7 0; dated 8 0] in
  state self = AwaitingBacklogResolution /\
  Forall (fun u => (_started_at self <= date (message u))%Q) batch /\
  (exists s, while_true (enough batch) batch (_started_at self) (loop_entry batch self)
             = Some (Broke BeforeFirst s) /\ to_check s = -1) /\
  exists self',
    fetch (answering (ApiReturn batch)) 1 self tt
    = (Return [dated 8 0] [dated 7 0], self', tt) /\
    [dated 8 0] <> [] /\
    [dated 7 0] <> batch.
Proof.
  cbv zeta. split; [reflexivity|]. split; [repeat constructor; discriminate|].
  split.
  - eexists. split; [vm_compute; reflexivity | reflexivity].
  - eexists. split; [vm_compute; reflexivity|]. split; discriminate.
Qed.

(** ** A batch across the start time *)

(** C3. For a fetcher in AwaitingBacklogResolution started at [T], a
    fetched batch of 5 updates whose message dates are
    [T-30, T-20, T-10, T+5, T+15] is split into
    [backlog = updates[0:3]] and [live = updates[3:5]], and the fetcher
    goes to BacklogResolved. *)
Theorem fetch_small_batch {Remote : Type}
    (api_call : Remote -> Z -> Z -> ApiResult * Remote)
    (timeout : Z) (self : UpdatesFetcher) (r r' : Remote) (T : Q)
    (u0 u1 u2 u3 u4 : Update) :
  let updates := [u0; u1; u2; u3; u4] in
  api_call r (_last_id self + 1) timeout = (ApiReturn updates, r') ->
  state self = AwaitingBacklogResolution ->
  (_started_at self == T)%Q ->
  (date (message u0) == T - 30)%Q ->
  (date (message u1) == T - 20)%Q ->
  (date (message u2) == T - 10)%Q ->
  (date (message u3) == T + 5)%Q ->
  (date (message u4) == T + 15)%Q ->
  exists self',
    fetch api_call timeout self r
    = (Return (Py.slice updates 3 5) (Py.slice updates 0 3), self', r') /\
    state self' = BacklogResolved.
Proof.
  intros updates Hapi Hst HT H0 H1 H2 H3 H4.
  assert (Hbp : _backlog_processed self = false).
  { unfold state, backlog_processed in Hst. destruct (_backlog_processed self);
      [discriminate | reflexivity]. }
  assert (L4 : Py.lt (date (message u4)) (_started_at self) = false).
  { apply PyFacts.lt_false. rewrite H4, HT. lra. }
  assert (L2 : Py.lt (date (message u2)) (_started_at self) = true).
  { apply PyFacts.lt_true. rewrite H2, HT. lra. }
  subst updates.
  rewrite (fetch_searches api_call timeout self r u0 [u1; u2; u3; u4] r' Hapi Hbp).
  cbv zeta.
  assert (E1 : loop_body [u0; u1; u2; u3; u4] (_started_at self)
                 (loop_entry [u0; u1; u2; u3; u4] self)
               = Continue
                   {| to_check := 2; check_chunk := 2; direction := -1; last := -1;
                      processed := _backlog_processed self |}).
  { unfold loop_body.
    change (Py.index [u0; u1; u2; u3; u4]
              (to_check (loop_entry [u0; u1; u2; u3; u4] self))) with (Some u4).
    cbv beta iota zeta. rewrite L4. reflexivity. }
  assert (E2 : loop_body [u0; u1; u2; u3; u4] (_started_at self)
                 {| to_check := 2; check_chunk := 2; direction := -1; last := -1;
                    processed := _backlog_processed self |}
               = Broke Converged
                   {| to_check := 3; check_chunk := 1; direction := 1; last := -1;
                      processed := true |}).
  { unfold loop_body.
    change (Py.index [u0; u1; u2; u3; u4]
              (to_check {| to_check := 2; check_chunk := 2; direction := -1;
                           last := -1; processed := _backlog_processed self |}))
      with (Some u2).
    cbv beta iota zeta. rewrite L2. reflexivity. }
  change (enough [u0; u1; u2; u3; u4]) with (S (S 16)).
  rewrite while_true_step, E1, while_true_step, E2.
  eexists. split; reflexivity.
Qed.

(** C3, at [T = 100] and update ids 1 to 5. *)
Lemma fetch_small_batch_witness :
  let updates := [dated 1 70; dated 2 80; dated 3 90; dated 4 105; dated 5 115] in
  exists self',
    fetch (answering (ApiReturn updates)) 1 (__init__ false 100) tt
    = (Return [dated 4 105; dated 5 115] [dated 1 70; dated 2 80; dated 3 90],
       self', tt) /\
    state self' = BacklogResolved.
Proof.
  apply (fetch_small_batch
           (answering (ApiReturn
              [dated 1 70; dated 2 80; dated 3 90; dated 4 105; dated 5 115]))
           1 (__init__ false 100) tt tt 100
           (dated 1 70) (dated 2 80) (dated 3 90) (dated 4 105) (dated 5 115));
    reflexivity.
Defined.

(** ** Errors *)

(** C8. [fetch] raises [FetchError] exactly when the call of the remote
    API fails to turn the response into the list of updates (it raises
    [ValueError]), and in that case the fetcher ([_last_id],
    [_backlog_processed] and the start time) is as it was before the
    call. *)
Theorem fetch_error {Remote : Type}
    (api_call : Remote -> Z -> Z -> ApiResult * Remote)
    (timeout : Z) (self : UpdatesFetcher) (r : Remote) :
  let '(outcome, self', _) := fetch api_call timeout self r in
  (outcome = Raise FetchError <->
   fst (api_call r (_last_id self + 1) timeout) = ApiRaise ValueError) /\
  (outcome = Raise FetchError ->
   self' = self /\
   _last_id self' = _last_id self /\
   backlog_processed self' = backlog_processed self).
Proof.
  unfold fetch.
  destruct (api_call r (_last_id self + 1) timeout) as [[updates|[|]] r'];
    cbn [fst].
  - match goal with
    | |- context [if ?b then _ else _] => destruct b
    end.
    + split; [split; discriminate | discriminate].
    + destruct updates as [|u updates].
      * split; [split; discriminate | discriminate].
      * destruct (while_true _ _ _ _) as [[s|why s|]|];
          (split; [split; discriminate | discriminate]).
  - split; [split; reflexivity | auto].
  - split; [split; discriminate | discriminate].
Qed.

(** ** The cursor *)

Section Cursor.
Context {Remote : Type}.
Variable api_call : Remote -> Z -> Z -> ApiResult * Remote.

(** The remote is called once, with the offset after the cursor. *)
Lemma fetch_remote timeout self (r : Remote) :
  snd (fetch api_call timeout self r)
  = snd (api_call r (_last_id self + 1) timeout).
Proof.
  unfold fetch.
  destruct (api_call r (_last_id self + 1) timeout) as [[updates|[|]] r'];
    try reflexivity.
  destruct (_backlog_processed _); [reflexivity|].
  destruct updates; [reflexivity|].
  destruct (while_true _ _ _ _) as [[s|why s|]|]; reflexivity.
Qed.

(** The cursor after a call: the id of the last update of the batch, or
    the cursor before when there is none. *)
Lemma fetch_last_id timeout self (r : Remote) :
  _last_id (snd (fst (fetch api_call timeout self r)))
  = match fst (api_call r (_last_id self + 1) timeout) with
    | ApiReturn updates =>
        match Py.index updates (-1) with
        | Some u => update_id u
        | None => _last_id self
        end
    | ApiRaise _ => _last_id self
    end.
Proof.
  unfold fetch.
  destruct (api_call r (_last_id self + 1) timeout) as [[updates|[|]] r'];
    try reflexivity.
  cbn [fst].
  destruct (_backlog_processed _);
    [destruct (Py.index updates (-1)); reflexivity|].
  destruct updates as [|u updates]; [reflexivity|].
  destruct (while_true _ _ _ _) as [[s|why s|]|];
    destruct (Py.index (u :: updates) (-1)); reflexivity.
Qed.
End Cursor.

Lemma seen_app h q : seen (h ++ [q]) = seen h ++ ids_of (reply q).
Proof. unfold seen. rewrite flat_map_app. cbn. now rewrite app_nil_r. Qed.

(** In an ascending list the last element is the greatest. *)
Lemma ascending_last (x : Z) (l : list Z) :
  ascending (x :: l) -> Forall (fun y => y <= List.last (x :: l) x) (x :: l).
Proof.
  revert x. induction l as [|y l IH]; intros x H.
  - repeat constructor. cbn. lia.
  - destruct H as [Hxy H]. specialize (IH y H).
    change (List.last (x :: y :: l) x) with (List.last (y :: l) x).
    rewrite (PyFacts.last_indep (y :: l) x y) by discriminate.
    constructor; [|assumption].
    inversion IH; subst. lia.
Qed.

Lemma last_map_update_id (u : Update) (l : list Update) :
  List.last (map update_id (u :: l)) (update_id u) = update_id (List.last (u :: l) u).
Proof.
  revert u. induction l as [|v l IH]; intros u; [reflexivity|].
  change (List.last (map update_id (u :: v :: l)) (update_id u))
    with (List.last (map update_id (v :: l)) (update_id u)).
  change (List.last (u :: v :: l) u) with (List.last (v :: l) u).
  rewrite (PyFacts.last_indep (map update_id (v :: l)) (update_id u) (update_id v))
    by discriminate.
  rewrite (PyFacts.last_indep (v :: l) u v) by discriminate.
  apply IH.
Qed.

(** One round of the poll loop against a well-behaved remote. *)
Lemma fetch_cursor {Remote : Type} (api_call : Remote -> Z -> Z -> ApiResult * Remote)
    timeout self (r : Remote) h :
  well_behaved api_call ->
  cursor_covers self h ->
  let '(_, self', r') := fetch (logging api_call) timeout self (r, h) in
  cursor_moves {| before := self; after := self'; history := snd r' |} /\
  cursor_covers self' (snd r').
Proof.
  intros Hwb Hcov.
  pose proof (fetch_remote (logging api_call) timeout self (r, h)) as Hr.
  pose proof (fetch_last_id (logging api_call) timeout self (r, h)) as Hl.
  destruct (fetch (logging api_call) timeout self (r, h)) as [[out self'] r'].
  cbn [fst snd] in Hr, Hl. unfold logging in Hr, Hl. cbn [fst snd] in Hr, Hl.
  specialize (Hwb r (_last_id self + 1) timeout).
  destruct (api_call r (_last_id self + 1) timeout) as [res r1].
  cbn [fst snd] in Hr, Hl. subst r'. cbn [snd].
  set (q := {| offset := _last_id self + 1; timeout := timeout; reply := res |}).
  unfold cursor_moves, cursor_covers. cbn [before after history].
  rewrite seen_app. change (reply q) with res.
  destruct res as [[|u updates]|e].
  - (* an empty batch *)
    cbn in Hl. rewrite Hl. cbn [ids_of map]. rewrite app_nil_r.
    split; [|assumption]. split; [lia|].
    exists h, q. split; [reflexivity|]. split; [reflexivity|].
    intros H. exfalso. apply H. reflexivity.
  - (* a batch *)
    destruct (Hwb _ _ eq_refl) as [Hasc Habove].
    rewrite (PyFacts.index_last (u :: updates) u) in Hl by discriminate.
    pose proof (ascending_last (update_id u) (map update_id updates) Hasc) as Hmax.
    change (update_id u :: map update_id updates)
      with (map update_id (u :: updates)) in Hmax.
    rewrite last_map_update_id in Hmax. rewrite <- Hl in Hmax.
    assert (Hup : _last_id self < _last_id self').
    { inversion Hmax; subst. inversion Habove; subst. lia. }
    assert (Hall : Forall (fun x => x <= _last_id self')
                     (seen h ++ ids_of (ApiReturn (u :: updates)))).
    { apply Forall_app. split; [|exact Hmax].
      eapply Forall_impl; [|exact Hcov]. cbn. intros. lia. }
    split; [|assumption]. split; [lia|].
    exists h, q. split; [reflexivity|]. split; [reflexivity|].
    intros _. split; [|assumption].
    apply in_or_app. right. rewrite Hl. cbn [ids_of].
    apply in_map. destruct (exists_last (l := u :: updates)) as (l' & a & E);
      [discriminate|].
    rewrite E, last_last. apply in_or_app. right. now left.
  - (* an exception *)
    cbn in Hl. rewrite Hl. cbn [ids_of]. rewrite app_nil_r.
    split; [|assumption]. split; [lia|].
    exists h, q. split; [reflexivity|]. split; [reflexivity|].
    intros H. exfalso. apply H. reflexivity.
Qed.

Lemma poll_cursor {Remote : Type} (api_call : Remote -> Z -> Z -> ApiResult * Remote)
    timeouts self (r : Remote) h :
  well_behaved api_call ->
  cursor_covers self h ->
  chained self (poll api_call timeouts self (r, h)) /\
  Forall cursor_moves (poll api_call timeouts self (r, h)).
Proof.
  intros Hwb. revert self r h.
  induction timeouts as [|t timeouts IH]; intros self r h Hcov.
  - split; constructor.
  - cbn [poll].
    pose proof (fetch_cursor api_call t self r h Hwb Hcov) as Hstep.
    destruct (fetch (logging api_call) t self (r, h)) as [[out self'] [r' h']].
    destruct Hstep as [Hmoves Hcov']. cbn [snd] in *.
    destruct (IH self' r' h' Hcov') as [Hch Hall].
    split; [split; [reflexivity | exact Hch] | constructor; assumption].
Qed.

(** C4. Against a remote whose every response is a list in ascending
    [update_id] order with every [update_id] greater than the requested
    offset, along every sequence of [fetch] calls of a new fetcher: each
    call starts from the fetcher the previous one has left, [_last_id]
    never decreases, every call asks the remote for the offset
    [_last_id + 1], and after every call that received a non-empty
    batch [_last_id] is the greatest [update_id] the remote has handed
    out in all calls so far. *)
Theorem cursor_monotonic {Remote : Type}
    (api_call : Remote -> Z -> Z -> ApiResult * Remote)
    (process_backlog : bool) (now : Q) (r : Remote) (timeouts : list Z) :
  well_behaved api_call ->
  let self := __init__ process_backlog now in
  let rounds := poll api_call timeouts self (r, []) in
  List.length rounds = List.length timeouts /\
  chained self rounds /\
  Forall cursor_moves rounds.
Proof.
  intros Hwb self rounds. split.
  - subst rounds. generalize self, (r, @nil Request).
    induction timeouts as [|t timeouts IH]; intros f p; [reflexivity|].
    cbn [poll]. destruct (fetch (logging api_call) t f p) as [[out f'] p'].
    cbn [List.length]. now rewrite IH.
  - apply poll_cursor; [assumption | constructor].
Qed.

Lemma two_more_well_behaved : well_behaved two_more.
Proof.
  intros r o t updates r' H. injection H as <- _.
  split; cbn [map ascending update_id].
  - repeat split. lia.
  - constructor; [cbn; lia|]. constructor; [cbn; lia|]. constructor.
Defined.

(** C4, at three calls of a remote that always has two more updates. *)
Lemma cursor_monotonic_witness :
  let self := __init__ false 0 in
  let rounds := poll two_more [1; 1; 1] self (0%nat, []) in
  List.length rounds = 3%nat /\
  chained self rounds /\
  Forall cursor_moves rounds.
Proof.
  exact (cursor_monotonic two_more false 0 0%nat [1; 1; 1] two_more_well_behaved).
Defined.

End UpdatesFacts.

(** * Properties of the components *)

Module ComponentsFacts.
Import Components.

Local Open Scope string_scope.

(** ** Message-matches hooks *)

Section Matches.
Context {W : Type}.
Variable re : Re.
Variable bot : Bot W.

(** The loop over the matches: the function is called on every match,
    or on the first one only, and the flag is set on the first. *)
Lemma for_results_calls func multiple chat message results found w :
  for_results func multiple bot chat message results found w
  = (found || match results with [] => false | _ => true end,
     fold_left
       (fun w result =>
          snd (_call bot func
                 [AChat chat; AMessage message; AGroups (groups result)] w))
       (if multiple then results else firstn 1 results) w).
Proof.
  revert found w. induction results as [|result results IH]; intros found w.
  - cbn. rewrite orb_false_r. now destruct multiple.
  - cbn [for_results]. destruct multiple; cbn [negb].
    + rewrite IH. cbn [fold_left]. rewrite orb_true_r. reflexivity.
    + rewrite orb_true_r. reflexivity.
Qed.

Lemma processor_calls func regex flags multiple compiled chat t d w :
  compile re regex flags = Some compiled ->
  let message := {| text := Some t; date := d |} in
  let results := finditer re compiled t in
  processor re func regex flags multiple bot chat message w
  = Returned (Some match results with [] => false | _ => true end)
      (fold_left
         (fun w result =>
            snd (_call bot func
                   [AChat chat; AMessage message; AGroups (groups result)] w))
         (if multiple then results else firstn 1 results) w).
Proof.
  intros Hc message results. unfold processor. cbn [text message].
  rewrite Hc. fold results. rewrite for_results_calls. reflexivity.
Qed.
End Matches.

(** C5. For every message-matches hook built by
    [add_message_matches_hook] from a callable and a pattern that
    compiles, and every message with a text body: when invoked, the hook
    calls the user's function once per match of the pattern, in the
    order in which [finditer] yields them (left to right,
    non-overlapping), with the groups of the match, except that with
    [multiple = false] it stops after the first match; it returns true
    exactly when there is at least one match.  In particular, on the
    text "cat cat cat" with the pattern cat, [multiple = false] gives
    exactly one call, [multiple = true] gives exactly three, and both
    hooks return true. *)
Theorem matches_hook :
  (forall (W : Type) (re : Re) (bot : Bot W) (self : Component)
          (func : Callable) (regex : string) (flags : Z) (multiple : bool)
          (compiled : pattern re) (chat : Chat) (t : string) (d : Q) (w : W),
      compile re regex flags = Some compiled ->
      let message := {| text := Some t; date := d |} in
      let results := finditer re compiled t in
      let hook := Processor func regex flags multiple in
      exists self' run,
        add_message_matches_hook (Fn func) regex flags multiple self = (self', None) /\
        __processors self' = (__processors self ++ [hook])%list /\
        body re hook = Some run /\
        run bot chat message w
        = Returned (Some match results with [] => false | _ => true end)
            (fold_left
               (fun w result =>
                  snd (_call bot func
                         [AChat chat; AMessage message; AGroups (groups result)] w))
               (if multiple then results else firstn 1 results) w)) /\
  (let f := Def "on_cat" 0 in
   let chat := {| chat_id := 1 |} in
   let message := {| text := Some "cat cat cat"; date := 0%Q |} in
   let once := (f, [AChat chat; AMessage message; AGroups []]) in
   processor literal f "cat" 0 false (recording commands_re) chat message []
   = Returned (Some true) [once] /\
   processor literal f "cat" 0 true (recording commands_re) chat message []
   = Returned (Some true) [once; once; once]).
Proof.
  split.
  - intros W re bot self func regex flags multiple compiled chat t d w Hc.
    cbv zeta. do 2 eexists. split; [reflexivity|]. split; [reflexivity|].
    split; [reflexivity|]. now apply processor_calls.
  - cbv zeta. split; reflexivity.
Qed.

(** C5, at the text "cat cat cat" and the pattern cat, all matches. *)
Lemma matches_hook_witness :
  let f := Def "on_cat" 0 in
  let message := {| text := Some "cat cat cat"; date := 0%Q |} in
  let hook := Processor f "cat" 0 true in
  exists self' run,
    add_message_matches_hook (Fn f) "cat" 0 true (__init__ "Component" None None)
    = (self', None) /\
    __processors self' = [hook] /\
    body literal hook = Some run /\
    run (recording commands_re) {| chat_id := 1 |} message []
    = Returned (Some true)
        (fold_left
           (fun w result =>
              (w ++ [(f, [AChat {| chat_id := 1 |}; AMessage message;
                          AGroups (groups result)])])%list)
           (occurrences "cat" 0 0 "cat cat cat") []).
Proof.
  exact (proj1 matches_hook Calls literal (recording commands_re)
           (__init__ "Component" None None) (Def "on_cat" 0) "cat" 0%Z true
           "cat" {| chat_id := 1 |} "cat cat cat" 0%Q [] eq_refl).
Defined.

(** ** Command hooks *)

Lemma slice_from_1 {A : Type} (l : list A) : Py.slice_from l 1 = tl l.
Proof.
  destruct l as [|a l]; [reflexivity|].
  unfold Py.slice_from, Py.clamp. rewrite PyFacts.len_cons.
  pose proof (PyFacts.len_nonneg l).
  replace (1 <? 0)%Z with false by reflexivity.
  rewrite Z.min_r by lia. reflexivity.
Qed.

Lemma split_spaceless w : spaceless w = true -> split " " w = [w].
Proof.
  induction w as [|c w IH]; intros H; [reflexivity|].
  cbn in H. apply andb_true_iff in H as [Hc Hw]. apply negb_true_iff in Hc.
  cbn [split]. rewrite Hc, (IH Hw). reflexivity.
Qed.

Lemma split_word w rest :
  spaceless w = true ->
  split " " (w ++ String " " rest) = w :: split " " rest.
Proof.
  induction w as [|c w IH]; intros H; [reflexivity|].
  cbn in H. apply andb_true_iff in H as [Hc Hw]. apply negb_true_iff in Hc.
  cbn [append split]. rewrite Hc, (IH Hw). reflexivity.
Qed.

(** Splitting at single spaces undoes joining with single spaces. *)
Lemma split_concat words :
  words <> [] ->
  Forall (fun w => spaceless w = true) words ->
  split " " (String.concat " " words) = words.
Proof.
  induction words as [|w [|w' words] IH]; intros Hne Hall; [congruence | |].
  - inversion Hall; subst. now apply split_spaceless.
  - inversion Hall; subst.
    change (String.concat " " (w :: w' :: words))
      with (w ++ String " " (String.concat " " (w' :: words))).
    rewrite split_word by assumption. f_equal. apply IH; [discriminate | assumption].
Qed.

Lemma base_calls {W : Type} (bot : Bot W) name func chat t d w :
  _commands_re bot t = Some name ->
  let message := {| text := Some t; date := d |} in
  base name func bot chat message w
  = Returned (Some true)
      (snd (_call bot func
              [AChat chat; AMessage message; AArgs (tl (split " " t))] w)).
Proof.
  intros Hm message. unfold base. cbn [text message]. rewrite Hm.
  rewrite String.eqb_refl. cbn [negb]. rewrite slice_from_1. reflexivity.
Qed.

(** C6 (amended). For every registered command [(name, func)] and
    every message whose text the command pattern of the bot matches
    with that name, the hook made for the command splits the whole text
    at every single space character, leaves out the first piece (the
    command token), calls [func] with the other pieces as the argument
    list, and returns true.  When the text is the command token followed
    by arguments that contain no space, each after exactly one space,
    the argument list is those arguments; in particular the text
    "/start arg1 arg2" routed to the command start calls its handler
    with the arguments ["arg1", "arg2"]. *)
Theorem command_hook :
  (forall (W : Type) (re : Re) (bot : Bot W) (self : Component)
          (name : string) (func : Callable) (chat : Chat) (t : string) (d : Q)
          (w : W),
      In (name, func) (_get_commands self) ->
      _commands_re bot t = Some name ->
      let message := {| text := Some t; date := d |} in
      let hook := Command name func in
      In hook (__generate_commands_processors self) /\
      exists run,
        body re hook = Some run /\
        run bot chat message w
        = Returned (Some true)
            (snd (_call bot func
                    [AChat chat; AMessage message; AArgs (tl (split " " t))] w))) /\
  (forall (W : Type) (bot : Bot W) (name : string) (func : Callable)
          (chat : Chat) (token : string) (args : list string) (d : Q) (w : W),
      let t := String.concat " " (token :: args) in
      let message := {| text := Some t; date := d |} in
      spaceless token = true ->
      Forall (fun a => spaceless a = true) args ->
      _commands_re bot t = Some name ->
      base name func bot chat message w
      = Returned (Some true)
          (snd (_call bot func [AChat chat; AMessage message; AArgs args] w))) /\
  (let start := Def "start" 0 in
   let chat := {| chat_id := 1 |} in
   let message := {| text := Some "/start arg1 arg2"; date := 0%Q |} in
   base "start" start (recording commands_re) chat message []
   = Returned (Some true)
       [(start, [AChat chat; AMessage message; AArgs ["arg1"; "arg2"]])]).
Proof.
  split; [|split].
  - intros W re bot self name func chat t d w Hin Hm. cbv zeta. split.
    + unfold __generate_commands_processors.
      apply (in_map (fun '(name, func) => Command name func)) in Hin. exact Hin.
    + eexists. split; [reflexivity|]. now apply base_calls.
  - intros W bot name func chat token args d w t message Htok Hargs Hm.
    subst message. rewrite (base_calls bot name func chat t d w Hm).
    subst t. rewrite split_concat; [reflexivity | discriminate | now constructor].
  - reflexivity.
Qed.

(** C6, at the command start of a component and the text
    "/start arg1 arg2". *)
Lemma command_hook_witness :
  let start := Def "start" 0 in
  let self := fst (add_command (Fn start) "start" (__init__ "Component" None None)) in
  let chat := {| chat_id := 1 |} in
  let message := {| text := Some "/start arg1 arg2"; date := 0%Q |} in
  In (Command "start" start) (__generate_commands_processors self) /\
  exists run,
    body literal (Command "start" start) = Some run /\
    run (recording commands_re) chat message []
    = Returned (Some true)
        [(start, [AChat chat; AMessage message; AArgs ["arg1"; "arg2"]])].
Proof.
  exact (proj1 command_hook Calls literal (recording commands_re)
           (fst (add_command (Fn (Def "start" 0)) "start"
                   (__init__ "Component" None None)))
           "start" (Def "start" 0) {| chat_id := 1 |} "/start arg1 arg2" 0%Q []
           (or_introl eq_refl) eq_refl).
Defined.

(** C6 as the spec states it fails: with two spaces between the
    arguments of "/start arg1  arg2", the handler of start gets an empty
    string between them, not the list ["arg1", "arg2"] that splitting
    the rest of the text on whitespace gives. *)
Lemma command_hook_two_spaces :
  let start := Def "start" 0 in
  let chat := {| chat_id := 1 |} in
  let t := "/start arg1  arg2" in
  let message := {| text := Some t; date := 0%Q |} in
  commands_re t = Some "start" /\
  Spec.arguments t = ["arg1"; "arg2"] /\
  base "start" start (recording commands_re) chat message []
  = Returned (Some true)
      [(start, [AChat chat; AMessage message;
                AArgs ["arg1"; EmptyString; "arg2"]])] /\
  ["arg1"; EmptyString; "arg2"] <> Spec.arguments t.
Proof.
  cbv zeta. repeat split; try reflexivity. discriminate.
Qed.

(** ** Registration *)

Lemma contains_app d d' name :
  contains (d ++ d') name = contains d name || contains d' name.
Proof.
  induction d as [|[k v] d IH]; [reflexivity|].
  cbn. rewrite IH. now rewrite orb_assoc.
Qed.

(** Setting a key that is not there puts it last. *)
Lemma setitem_new d name v :
  contains d name = false -> setitem d name v = (d ++ [(name, v)])%list.
Proof.
  induction d as [|[k v'] d IH]; intros H; [reflexivity|].
  cbn in H. apply orb_false_iff in H as [Hk Hd].
  cbn. rewrite Hk, (IH Hd). reflexivity.
Qed.

Lemma getitem_in d name v :
  NoDup (map fst d) -> In (name, v) d -> getitem d name = Some v.
Proof.
  induction d as [|[k v'] d IH]; intros Hnd Hin; [contradiction|].
  cbn [map fst] in Hnd. inversion Hnd as [|? ? Hk Hnd']; subst.
  cbn. destruct Hin as [E|Hin].
  - injection E as -> ->. now rewrite String.eqb_refl.
  - destruct (String.eqb_spec k name) as [->|_].
    + exfalso. apply Hk. apply (in_map fst) in Hin. exact Hin.
    + now apply IH.
Qed.

Lemma commands_of_names gs name :
  In name (map fst (commands_of gs)) -> In name (command_names gs).
Proof.
  induction gs as [|g gs IH]; [contradiction|].
  destruct g as [f|f|f ? ? ?|f ? ? ?|[f|o] n]; cbn; auto.
  intros [->|H]; auto.
Qed.

Lemma commands_of_nodup gs :
  NoDup (command_names gs) -> NoDup (map fst (commands_of gs)).
Proof.
  induction gs as [|g gs IH]; [constructor|].
  destruct g as [f|f|f ? ? ?|f ? ? ?|[f|o] n]; cbn; auto;
    intros H; inversion H; subst; auto.
  constructor; auto. intros Hin. now apply commands_of_names in Hin.
Qed.

(** What a sequence of registrations does to the three stores. *)
Lemma register_all_hooks gs self :
  let self' := fst (register_all gs self) in
  component_name self' = component_name self /\
  __before_processors self' = (__before_processors self ++ before_hooks_of gs)%list /\
  __processors self' = (__processors self ++ message_hooks_of gs)%list.
Proof.
  revert self. induction gs as [|g gs IH]; intros self.
  - cbn. now rewrite !app_nil_r.
  - cbn [register_all].
    destruct (register g self) as [self1 e] eqn:E1.
    specialize (IH self1).
    destruct (register_all gs self1) as [self2 es]. cbn [fst] in *.
    destruct IH as (Hn & Hb & Hp). rewrite Hn, Hb, Hp.
    destruct g as [[f|o]|[f|o]|[f|o] ? ? ?|[f|o] ? ? ?|[f|o] n];
      cbn in E1; try (injection E1 as <- <-; cbn;
                      rewrite <- ?app_assoc, ?app_nil_r; auto).
    all: unfold add_command in E1;
      destruct (contains (__commands self) n); injection E1 as <- <-; cbn;
      rewrite ?app_nil_r; auto.
Qed.

Lemma register_all_commands gs self :
  NoDup (command_names gs) ->
  (forall name, In name (command_names gs) -> contains (__commands self) name = false) ->
  __commands (fst (register_all gs self)) = (__commands self ++ commands_of gs)%list.
Proof.
  revert self. induction gs as [|g gs IH]; intros self Hnd Hnew.
  - cbn. now rewrite app_nil_r.
  - cbn [register_all].
    destruct (register g self) as [self1 e] eqn:E1.
    specialize (IH self1).
    destruct (register_all gs self1) as [self2 es]. cbn [fst] in *.
    destruct g as [[f|o]|[f|o]|[f|o] ? ? ?|[f|o] ? ? ?|[f|o] n];
      cbn in E1, Hnd, Hnew |- *;
      try (injection E1 as <- <-; cbn in IH; now apply IH).
    + (* a command, callable *)
      unfold add_command in E1.
      rewrite (Hnew n (or_introl eq_refl)) in E1. injection E1 as <- <-.
      inversion Hnd as [|? ? Hn Hnd']; subst.
      rewrite setitem_new in IH by auto. cbn in IH.
      rewrite IH; [now rewrite <- app_assoc | assumption |].
      intros name Hin. rewrite contains_app, (Hnew name (or_intror Hin)). cbn.
      rewrite orb_false_r. apply String.eqb_neq. intros ->. contradiction.
    + (* a command, not callable *)
      unfold add_command in E1.
      rewrite (Hnew n (or_introl eq_refl)) in E1. injection E1 as <- <-.
      inversion Hnd; subst. apply IH; auto.
Qed.

(** C7. For every sequence of registrations on a new component in which
    the names of the [add_command] calls are pairwise distinct, the
    commands of the component are those of the calls (with a callable),
    in the order of the calls, and each of them is retrieved under its
    name; and for every state of a component, [add_command] with a name
    already registered in that component raises [NameError]
    (DuplicateCommand) and leaves the component, in particular its
    commands, its message hooks and its before hooks, as they were. *)
Theorem add_command_registers :
  (forall (gs : list Registration) (self : Component),
      _get_commands self = [] ->
      NoDup (command_names gs) ->
      let self' := fst (register_all gs self) in
      _get_commands self' = commands_of gs /\
      forall name func,
        In (AddCommand (Fn func) name) gs ->
        getitem (_get_commands self') name = Some func) /\
  (forall (self : Component) (func : Object) (name : string),
      contains (_get_commands self) name = true ->
      exists e,
        add_command func name self = (self, Some e) /\
        DuplicateCommand e /\
        let self' := fst (add_command func name self) in
        _get_commands self' = _get_commands self /\
        __processors self' = __processors self /\
        __before_processors self' = __before_processors self).
Proof.
  split.
  - intros gs self Hfresh Hnd. cbv zeta. unfold _get_commands in *.
    assert (E : __commands (fst (register_all gs self)) = commands_of gs).
    { rewrite register_all_commands; [now rewrite Hfresh | assumption |].
      intros. now rewrite Hfresh. }
    split; [exact E|].
    intros name func Hin. rewrite E.
    apply getitem_in; [now apply commands_of_nodup|].
    unfold commands_of. apply in_flat_map.
    exists (AddCommand (Fn func) name). split; [assumption | now left].
  - intros self func name Hdup. unfold add_command, _get_commands in *.
    rewrite Hdup. eexists. split; [reflexivity|]. split; [eexists; reflexivity|].
    cbn. auto.
Qed.

(** C7, at two commands, and at a second registration of the first. *)
Lemma add_command_registers_witness :
  let start := Def "start" 0 in
  let stop := Def "stop" 1 in
  let gs := [AddCommand (Fn start) "start"; AddCommand (Fn stop) "stop"] in
  let self := fst (register_all gs (__init__ "Component" None None)) in
  (_get_commands self = [("start", start); ("stop", stop)] /\
   forall name func,
     In (AddCommand (Fn func) name) gs ->
     getitem (_get_commands self) name = Some func) /\
  exists e,
    add_command (Fn stop) "start" self = (self, Some e) /\
    DuplicateCommand e /\
    let self' := fst (add_command (Fn stop) "start" self) in
    _get_commands self' = _get_commands self /\
    __processors self' = __processors self /\
    __before_processors self' = __before_processors self.
Proof.
  split.
  - refine (proj1 add_command_registers
              [AddCommand (Fn (Def "start" 0)) "start";
               AddCommand (Fn (Def "stop" 1)) "stop"]
              (__init__ "Component" None None) eq_refl _).
    repeat constructor; cbn; intuition discriminate.
  - exact (proj2 add_command_registers
             (fst (register_all
                     [AddCommand (Fn (Def "start" 0)) "start";
                      AddCommand (Fn (Def "stop" 1)) "stop"]
                     (__init__ "Component" None None)))
             (Fn (Def "stop" 1)) "start" eq_refl).
Defined.

(** ** The hook chain *)

(** C9. For every sequence of registrations on a new component, the
    hook chain of [_get_hooks_chain] is made of exactly three groups, in
    the order before hooks, command hooks, message hooks; the before
    hooks and the message hooks are those of the registration calls, in
    the order of the calls (the first registered comes first); the
    command hooks are one per registered command; and every hook comes
    with the details that [__wrap_function] sets. *)
Theorem hooks_chain_order (class_name : string) (class_component_name : option string)
    (name : option string) (gs : list Registration) :
  let self := fst (register_all gs (__init__ class_name class_component_name name)) in
  let wrap := map (__wrap_function self) in
  _get_hooks_chain self
  = [ wrap (before_hooks_of gs);
      wrap (map (fun '(name, func) => Command name func) (_get_commands self));
      wrap (message_hooks_of gs) ] /\
  map (map fst) (_get_hooks_chain self)
  = [ before_hooks_of gs;
      map (fun '(name, func) => Command name func) (_get_commands self);
      message_hooks_of gs ].
Proof.
  cbv zeta.
  pose proof (register_all_hooks gs (__init__ class_name class_component_name name))
    as (_ & Hb & Hp).
  cbv zeta in Hb, Hp. cbn [__init__ __before_processors __processors app] in Hb, Hp.
  set (self := fst (register_all gs (__init__ class_name class_component_name name))) in *.
  assert (E : _get_hooks_chain self
              = [ map (__wrap_function self) (before_hooks_of gs);
                  map (__wrap_function self)
                    (map (fun '(name, func) => Command name func) (_get_commands self));
                  map (__wrap_function self) (message_hooks_of gs) ]).
  { unfold _get_hooks_chain, __generate_commands_processors, _get_commands.
    cbn [map]. now rewrite Hb, Hp. }
  split; [exact E|].
  rewrite E. cbn [map]. rewrite !map_map. cbn [__wrap_function fst].
  now rewrite !map_id.
Qed.

End ComponentsFacts.

(** * What the boundary search finds *)

Module SearchFacts.
Import Updates UpdatesFacts.

Lemma chunk_cases c :
  1 <= c ->
  let h := Py.int_half c in
  let c' := if h =? 0 then 1 else h in
  (c = 1 /\ c' = 1) \/ (2 <= c /\ 1 <= c' /\ 2 * c' <= c <= 2 * c' + 1).
Proof.
  intros Hc h c'. subst h c'. rewrite PyFacts.int_half_nonneg by lia.
  destruct (c / 2 =? 0) eqn:E; ztests;
    Z.to_euclidean_division_equations; lia.
Qed.

(** One iteration keeps what the search has seen, and a [break] by
    convergence or before the first index comes with its evidence. *)
Lemma loop_body_probing updates started_at s :
  probing updates started_at s ->
  match loop_body updates started_at s with
  | Continue s' => probing updates started_at s'
  | Broke PastEnd s' => Py.len updates <= to_check s'
  | Broke why s' => found updates started_at why s'
  | Raised => False
  end.
Proof.
  intros (Hb & Hfar & Hprev).
  pose proof (loop_body_in_bounds updates started_at s Hb) as Hs.
  destruct Hb as [Htc Hc]. unfold loop_body in *.
  destruct (PyFacts.index_in_range updates (to_check s) Htc) as (u & Hu & _).
  rewrite Hu in *.
  pose proof (chunk_cases (check_chunk s) Hc) as Hcc. cbv zeta in Hcc.
  set (c' := if Py.int_half (check_chunk s) =? 0 then 1
             else Py.int_half (check_chunk s)) in *.
  destruct (Py.lt (date (message u)) started_at) eqn:El.
  - (* from the backlog: forward *)
    destruct ((1 =? 1) && (last s =? -1) && (c' =? 1)) eqn:Ec.
    + ztests. unfold found; proj. split.
      * exists u. replace (to_check s + 1 - 1) with (to_check s) by lia.
        repeat split; [assumption | lia | exact El].
      * destruct (Hprev ltac:(assumption)) as (v & Hlt & Hv & Hlive).
        exists (to_check s + check_chunk s), v. repeat split; try assumption; lia.
    + replace (to_check s + 1 * c' <? 0) with false in *
        by (symmetry; apply Z.ltb_ge; lia).
      destruct (to_check s + 1 * c' >=? Py.len updates) eqn:Eo; [exact Hs|].
      destruct Hs as (Hb' & _). ztests.
      split; [assumption|]. proj. split; [lia|]. intros; lia.
  - (* not from the backlog: backward *)
    replace ((-1 =? 1) && (last s =? -1) && (c' =? 1)) with false in * by reflexivity.
    destruct (to_check s + -1 * c' <? 0) eqn:Eu; ztests.
    + unfold found; proj.
      assert (to_check s = 0) by lia.
      split; [lia|]. exists u. split; [congruence | exact El].
    + replace (to_check s + -1 * c' >=? Py.len updates) with false in *
        by (symmetry; rewrite Z.geb_leb; apply Z.leb_gt; lia).
      destruct Hs as (Hb' & _).
      split; [assumption|]. proj. split; [lia|]. intros _.
      exists u. replace (to_check s + -1 * c' + c') with (to_check s) by lia.
      repeat split; [lia | assumption | exact El].
Qed.

(** With a newest update that is not from the backlog, the probe never
    leaves the batch at its end. *)
Lemma loop_body_anchored updates started_at s newest :
  Py.index updates (Py.len updates - 1) = Some newest ->
  from_backlog started_at newest = false ->
  in_bounds updates s ->
  anchored updates s ->
  match loop_body updates started_at s with
  | Continue s' => anchored updates s'
  | Broke PastEnd _ => False
  | _ => True
  end.
Proof.
  intros Hnew Hlive Hb Han.
  pose proof (loop_body_in_bounds updates started_at s Hb) as Hs.
  destruct Hb as [Htc Hc]. unfold loop_body in *.
  destruct (PyFacts.index_in_range updates (to_check s) Htc) as (u & Hu & _).
  rewrite Hu in *.
  pose proof (chunk_cases (check_chunk s) Hc) as Hcc. cbv zeta in Hcc.
  set (c' := if Py.int_half (check_chunk s) =? 0 then 1
             else Py.int_half (check_chunk s)) in *.
  destruct (Py.lt (date (message u)) started_at) eqn:El.
  - assert (Hnot : to_check s <> Py.len updates - 1).
    { intros E. rewrite E, Hnew in Hu. injection Hu as <-.
      unfold from_backlog in Hlive. congruence. }
    destruct ((1 =? 1) && (last s =? -1) && (c' =? 1)); [exact I|].
    replace (to_check s + 1 * c' <? 0) with false in *
      by (symmetry; apply Z.ltb_ge; lia).
    destruct (to_check s + 1 * c' >=? Py.len updates) eqn:Eo; ztests.
    + unfold anchored in Han. lia.
    + unfold anchored in *; proj. right. split; [lia|]. lia.
  - replace ((-1 =? 1) && (last s =? -1) && (c' =? 1)) with false in * by reflexivity.
    destruct (to_check s + -1 * c' <? 0) eqn:Eu; [exact I|].
    replace (to_check s + -1 * c' >=? Py.len updates) with false in *
      by (symmetry; rewrite Z.geb_leb; apply Z.leb_gt; ztests; lia).
    unfold anchored in *; proj. right. split; lia.
Qed.

Lemma loop_entry_probing updates started_at self :
  updates <> [] -> probing updates started_at (loop_entry updates self).
Proof.
  intros H. split; [now apply loop_entry_in_bounds|].
  unfold loop_entry; proj. split; [lia | discriminate].
Qed.

Lemma while_true_probing fuel updates started_at s why s' :
  probing updates started_at s ->
  while_true fuel updates started_at s = Some (Broke why s') ->
  match why with
  | PastEnd => Py.len updates <= to_check s'
  | _ => found updates started_at why s'
  end.
Proof.
  revert s. induction fuel as [|fuel IH]; intros s Hp H; [discriminate|].
  rewrite while_true_step in H.
  pose proof (loop_body_probing updates started_at s Hp) as Hs.
  destruct (loop_body updates started_at s) as [s1|why1 s1|].
  - apply (IH s1); assumption.
  - injection H as <- <-. destruct why1; exact Hs.
  - contradiction.
Qed.

Lemma while_true_anchored fuel updates started_at s newest s' :
  Py.index updates (Py.len updates - 1) = Some newest ->
  from_backlog started_at newest = false ->
  in_bounds updates s ->
  anchored updates s ->
  while_true fuel updates started_at s <> Some (Broke PastEnd s').
Proof.
  intros Hnew Hlive. revert s. induction fuel as [|fuel IH]; intros s Hb Han;
    [discriminate|].
  rewrite while_true_step.
  pose proof (loop_body_anchored updates started_at s newest Hnew Hlive Hb Han) as Hs.
  pose proof (loop_body_in_bounds updates started_at s Hb) as Hs'.
  destruct (loop_body updates started_at s) as [s1|why1 s1|].
  - apply IH; [apply Hs' | exact Hs].
  - destruct why1; [discriminate | discriminate | contradiction].
  - discriminate.
Qed.

(** However the search on a non-empty batch is left, it has found what
    [found] says. *)
Lemma search_found fuel updates started_at self why s :
  updates <> [] ->
  while_true fuel updates started_at (loop_entry updates self)
  = Some (Broke why s) ->
  found updates started_at why s.
Proof.
  intros Hne Hrun.
  pose proof (while_true_probing _ _ _ _ _ _
                (loop_entry_probing updates started_at self Hne) Hrun) as Hf.
  destruct why; try exact Hf.
  split; [exact Hf|].
  pose proof (PyFacts.len_pos updates Hne) as Hp.
  destruct (PyFacts.index_in_range updates (Py.len updates - 1)) as (u & Hu & _);
    [lia|].
  exists u. split; [assumption|].
  destruct (from_backlog started_at u) eqn:E; [reflexivity|].
  exfalso.
  apply (while_true_anchored fuel updates started_at (loop_entry updates self) u s
           Hu E (loop_entry_in_bounds updates self Hne)); [|assumption].
  left. split; reflexivity.
Qed.

(** *** Lists *)

Section Lists.
Context {A : Type}.
Implicit Types l : list A.

Lemma last_skipn k l (d : A) :
  skipn k l <> [] -> List.last (skipn k l) d = List.last l d.
Proof.
  revert l. induction k as [|k IH]; intros l H; [reflexivity|].
  destruct l as [|a l]; [contradiction|].
  cbn [skipn] in *. rewrite (IH l H).
  destruct l as [|b l]; [destruct k; contradiction | reflexivity].
Qed.

Lemma slice_from_minus_1 l (d : A) :
  l <> [] -> Py.slice_from l (-1) = [List.last l d].
Proof.
  intros Hl. destruct (exists_last Hl) as (l' & a & ->).
  rewrite last_last. unfold Py.slice_from, Py.clamp, Py.len.
  rewrite length_app. cbn [List.length].
  replace (-1 <? 0) with true by reflexivity.
  replace (Z.to_nat _) with (List.length l') by lia.
  rewrite skipn_app, skipn_all, Nat.sub_diag. reflexivity.
Qed.

Lemma slice_to_minus_1 l : l <> [] -> Py.slice_to l (-1) = removelast l.
Proof.
  intros Hl. destruct (exists_last Hl) as (l' & a & ->).
  rewrite removelast_last. unfold Py.slice_to, Py.clamp, Py.len.
  rewrite length_app. cbn [List.length].
  replace (-1 <? 0) with true by reflexivity.
  replace (Z.to_nat _) with (List.length l') by lia.
  rewrite firstn_app, firstn_all, Nat.sub_diag. cbn. apply app_nil_r.
Qed.

Lemma index_nth_error l i a :
  0 <= i -> Py.index l i = Some a -> nth_error l (Z.to_nat i) = Some a.
Proof.
  intros Hi. unfold Py.index.
  destruct ((0 <=? i) && (i <? Py.len l)); [auto|].
  replace (i <? 0) with false by (symmetry; apply Z.ltb_ge; lia).
  rewrite andb_false_r. discriminate.
Qed.

Lemma nth_error_firstn_in k l i a :
  nth_error l i = Some a -> (i < k)%nat -> In a (firstn k l).
Proof.
  revert l i. induction k as [|k IH]; intros l i H Hlt; [lia|].
  destruct l as [|b l]; [destruct i; discriminate|].
  destruct i as [|i]; cbn in *.
  - left. congruence.
  - right. eapply IH; [eassumption | lia].
Qed.

Lemma in_firstn_nth k l a :
  In a (firstn k l) -> exists i, (i < k)%nat /\ nth_error l i = Some a.
Proof.
  revert l. induction k as [|k IH]; intros l H; [contradiction|].
  destruct l as [|b l]; [contradiction|].
  destruct H as [->|H].
  - exists 0%nat. split; [lia | reflexivity].
  - destruct (IH l H) as (i & Hi & Hn). exists (S i). split; [lia | assumption].
Qed.

Lemma in_skipn_nth k l a :
  In a (skipn k l) -> exists i, (k <= i)%nat /\ nth_error l i = Some a.
Proof.
  revert l. induction k as [|k IH]; intros l H.
  - apply In_nth_error in H as (i & Hi). exists i. split; [lia | assumption].
  - destruct l as [|b l]; [contradiction|].
    destruct (IH l H) as (i & Hi & Hn). exists (S i). split; [lia | assumption].
Qed.

Lemma last_firstn k l a (d : A) :
  nth_error l k = Some a -> List.last (firstn (S k) l) d = a.
Proof.
  revert l. induction k as [|k IH]; intros l H.
  - destruct l; [discriminate|]. cbn in *. congruence.
  - destruct l as [|b l]; [discriminate|]. cbn [nth_error] in H.
    specialize (IH l H). cbn [firstn] in *.
    destruct l as [|c l]; [destruct k; discriminate|]. exact IH.
Qed.
End Lists.

(** In a chronological batch the dates grow with the index. *)
Lemma chronological_nth updates i j ui uj :
  chronological updates ->
  (i <= j)%nat ->
  nth_error updates i = Some ui ->
  nth_error updates j = Some uj ->
  (date (message ui) <= date (message uj))%Q.
Proof.
  revert i j. induction updates as [|u updates IH]; intros i j Hc Hle Hi Hj.
  - destruct i; discriminate.
  - destruct Hc as [Hall Hch].
    destruct i as [|i], j as [|j]; cbn in Hi, Hj; try lia.
    + injection Hi as <-. injection Hj as <-. apply Qle_refl.
    + injection Hi as <-. rewrite Forall_forall in Hall.
      apply Hall. eapply nth_error_In; eassumption.
    + eapply IH; [assumption | | eassumption | eassumption]. lia.
Qed.

(** The first iteration, when the newest update is from the backlog. *)
Lemma loop_newest_backlog updates started_at self newest :
  Py.index updates (Py.len updates - 1) = Some newest ->
  from_backlog started_at newest = true ->
  exists s,
    loop_body updates started_at (loop_entry updates self) = Broke PastEnd s /\
    Py.len updates <= to_check s /\
    processed s = _backlog_processed self.
Proof.
  intros Hnew Hold.
  assert (Hp : 0 < Py.len updates).
  { destruct updates; [discriminate|]. rewrite PyFacts.len_cons.
    pose proof (PyFacts.len_nonneg updates). lia. }
  unfold loop_body. change (to_check (loop_entry updates self)) with (Py.len updates - 1).
  rewrite Hnew. change (Py.lt (date (message newest)) started_at)
    with (from_backlog started_at newest). rewrite Hold.
  pose proof (chunk_cases (Py.len updates) ltac:(lia)) as Hcc. cbv zeta in Hcc.
  unfold loop_entry; proj.
  set (c' := if Py.int_half (Py.len updates) =? 0 then 1
             else Py.int_half (Py.len updates)) in *.
  replace ((1 =? 1) && (0 =? -1) && (c' =? 1)) with false by reflexivity.
  replace (Py.len updates - 1 + 1 * c' <? 0) with false
    by (symmetry; apply Z.ltb_ge; lia).
  replace (Py.len updates - 1 + 1 * c' >=? Py.len updates) with true
    by (symmetry; rewrite Z.geb_leb; apply Z.leb_le; lia).
  eexists. split; [reflexivity|]. proj. split; [lia | reflexivity].
Qed.

Lemma awaiting_flag self :
  state self = AwaitingBacklogResolution -> _backlog_processed self = false.
Proof.
  unfold state, backlog_processed. destruct (_backlog_processed self);
    [discriminate | reflexivity].
Qed.

Lemma index_newest (u : Update) updates :
  Py.index (u :: updates) (Py.len (u :: updates) - 1)
  = Some (List.last (u :: updates) u).
Proof.
  assert (Hne : u :: updates <> []) by discriminate.
  destruct (exists_last Hne) as (l' & a & E). rewrite E, last_last.
  unfold Py.index, Py.len. rewrite length_app. cbn [List.length].
  replace ((0 <=? _) && (_ <? _)) with true
    by (symmetry; apply andb_true_iff; split; [apply Z.leb_le | apply Z.ltb_lt]; lia).
  replace (Z.to_nat _) with (List.length l') by lia.
  rewrite nth_error_app2 by lia. now rewrite Nat.sub_diag.
Qed.

(** How [fetch] ends on a non-empty batch while the backlog is not
    resolved: the search returns, and the result is cut at its probe. *)
Lemma fetch_cut {Remote : Type} (api_call : Remote -> Z -> Z -> ApiResult * Remote)
    timeout self r r' u updates :
  api_call r (_last_id self + 1) timeout = (ApiReturn (u :: updates), r') ->
  state self = AwaitingBacklogResolution ->
  exists why s,
    let batch := u :: updates in
    found batch (_started_at self) why s /\
    left_by batch why s /\
    fetch api_call timeout self r
    = (Return (Py.slice_from batch (to_check s)) (Py.slice_to batch (to_check s)),
       set_backlog_processed
         (set_last_id self (update_id (List.last batch u))) (processed s), r').
Proof.
  intros Hapi Hst. pose proof (awaiting_flag self Hst) as Hbp.
  assert (Hne : u :: updates <> []) by discriminate.
  destruct (loop_terminates_from (enough (u :: updates)) (u :: updates)
              (_started_at self) (loop_entry (u :: updates) self)
              (loop_entry_in_bounds _ self Hne) (loop_entry_budget _ self Hne))
    as (why & s & Hrun & Hleft).
  exists why, s. cbv zeta. split; [|split].
  - eapply search_found; eassumption.
  - assumption.
  - rewrite (fetch_searches api_call timeout self r u updates r' Hapi Hbp).
    cbv zeta. rewrite Hrun. reflexivity.
Qed.

(** ** What [fetch] returns, by the newest update of the batch *)

(** X1. While the backlog is not resolved, a non-empty batch whose
    newest (last) update is dated before the start time is returned
    whole as backlog, with nothing to process, whatever the dates of
    the other updates; the fetcher keeps waiting for the resolution of
    the backlog and its cursor is the id of that newest update. *)
Theorem fetch_newest_from_backlog {Remote : Type}
    (api_call : Remote -> Z -> Z -> ApiResult * Remote)
    (timeout : Z) (self : UpdatesFetcher) (r r' : Remote)
    (u : Update) (updates : list Update) :
  let batch := u :: updates in
  api_call r (_last_id self + 1) timeout = (ApiReturn batch, r') ->
  state self = AwaitingBacklogResolution ->
  from_backlog (_started_at self) (List.last batch u) = true ->
  exists self',
    fetch api_call timeout self r = (Return [] batch, self', r') /\
    state self' = AwaitingBacklogResolution /\
    _last_id self' = update_id (List.last batch u).
Proof.
  intros batch Hapi Hst Hold. subst batch.
  pose proof (awaiting_flag self Hst) as Hbp.
  rewrite (fetch_searches api_call timeout self r u updates r' Hapi Hbp). cbv zeta.
  destruct (loop_newest_backlog (u :: updates) (_started_at self) self _
              (index_newest u updates) Hold) as (s & Hs & Hpast & Hproc).
  destruct (enough_succ (u :: updates)) as (k & ->).
  rewrite while_true_step, Hs.
  rewrite PyFacts.slice_from_past_end, PyFacts.slice_to_past_end by assumption.
  eexists. split; [reflexivity|]. split; [|reflexivity].
  unfold state, backlog_processed. cbn. now rewrite Hproc, Hbp.
Qed.

Lemma fetch_newest_from_backlog_witness :
  let batch := [dated 1 5; dated 2 0] in
  exists self',
    fetch (answering (ApiReturn batch)) 1 (__init__ false 1) tt
    = (Return [] batch, self', tt) /\
    state self' = AwaitingBacklogResolution /\
    _last_id self' = 2.
Proof.
  exact (fetch_newest_from_backlog
           (answering (ApiReturn [dated 1 5; dated 2 0])) 1 (__init__ false 1)
           tt tt (dated 1 5) [dated 2 0] eq_refl eq_refl eq_refl).
Defined.

(** X2. While the backlog is not resolved, a non-empty batch whose
    newest (last) update is dated at or after the start time resolves
    the backlog: the fetcher goes to BacklogResolved, the returned lists
    split the batch, and the list to process is not empty and ends with
    that newest update. *)
Theorem fetch_newest_live {Remote : Type}
    (api_call : Remote -> Z -> Z -> ApiResult * Remote)
    (timeout : Z) (self : UpdatesFetcher) (r r' : Remote)
    (u : Update) (updates : list Update) :
  let batch := u :: updates in
  api_call r (_last_id self + 1) timeout = (ApiReturn batch, r') ->
  state self = AwaitingBacklogResolution ->
  from_backlog (_started_at self) (List.last batch u) = false ->
  exists to_process backlog self',
    fetch api_call timeout self r = (Return to_process backlog, self', r') /\
    state self' = BacklogResolved /\
    to_process <> [] /\
    List.last to_process u = List.last batch u /\
    backlog ++ to_process = batch.
Proof.
  intros batch Hapi Hst Hlive. subst batch.
  destruct (fetch_cut api_call timeout self r r' u updates Hapi Hst)
    as (why & s & Hfound & Hleft & ->). cbv zeta in *.
  assert (Hne : u :: updates <> []) by discriminate.
  assert (Hcut : Py.slice_from (u :: updates) (to_check s) <> [] /\
                 processed s = true).
  { destruct why; unfold found, left_by in Hfound, Hleft.
    - destruct Hfound as (_ & q & v & Hq & Hlt & _). split; [|apply Hleft].
      rewrite PyFacts.slice_from_nonneg by lia. intros E.
      apply (f_equal (@List.length Update)) in E. rewrite length_skipn in E.
      unfold Py.len in Hlt. cbn [List.length] in *. lia.
    - destruct Hfound as (Htc & _). split; [|apply Hleft].
      apply PyFacts.slice_from_negative; [assumption | lia].
    - destruct Hfound as (_ & v & Hv & Hold).
      rewrite index_newest in Hv. congruence. }
  destruct Hcut as [Hcut Hproc].
  do 3 eexists. split; [reflexivity|]. split; [|split; [|split]].
  - unfold state, backlog_processed. cbn. now rewrite Hproc.
  - assumption.
  - unfold Py.slice_from in *. now apply last_skipn.
  - apply PyFacts.slice_to_from.
Qed.

Lemma fetch_newest_live_witness :
  let batch := [dated 1 5; dated 2 0; dated 3 7] in
  exists to_process backlog self',
    fetch (answering (ApiReturn batch)) 1 (__init__ false 1) tt
    = (Return to_process backlog, self', tt) /\
    state self' = BacklogResolved /\
    to_process <> [] /\
    List.last to_process (dated 1 5) = dated 3 7 /\
    backlog ++ to_process = batch.
Proof.
  exact (fetch_newest_live
           (answering (ApiReturn [dated 1 5; dated 2 0; dated 3 7])) 1
           (__init__ false 1) tt tt (dated 1 5) [dated 2 0; dated 3 7]
           eq_refl eq_refl eq_refl).
Defined.

(** ** A batch that starts in the backlog and ends after the start *)

(** With an oldest update from the backlog and a newest one that is
    not, the search converges: the batch is cut at an index [b] inside
    it, the update before the cut is from the backlog, and one of the
    three updates from the cut on is not. *)
Lemma fetch_converges {Remote : Type}
    (api_call : Remote -> Z -> Z -> ApiResult * Remote)
    timeout self r r' u updates :
  let batch := u :: updates in
  api_call r (_last_id self + 1) timeout = (ApiReturn batch, r') ->
  state self = AwaitingBacklogResolution ->
  from_backlog (_started_at self) u = true ->
  from_backlog (_started_at self) (List.last batch u) = false ->
  exists (b q : nat) (old new : Update) self',
    fetch api_call timeout self r
    = (Return (skipn (S b) batch) (firstn (S b) batch), self', r') /\
    state self' = BacklogResolved /\
    nth_error batch b = Some old /\
    from_backlog (_started_at self) old = true /\
    (S b <= q <= S b + 2)%nat /\
    nth_error batch q = Some new /\
    from_backlog (_started_at self) new = false.
Proof.
  intros batch Hapi Hst Hfirst Hlive. subst batch.
  destruct (fetch_cut api_call timeout self r r' u updates Hapi Hst)
    as (why & s & Hfound & Hleft & ->). cbv zeta in *.
  destruct why; unfold found, left_by in Hfound, Hleft.
  - destruct Hfound as ((old & Hold & Hpos & Hob) & q & new & Hq & Hlt & Hnew & Hnb).
    destruct Hleft as [_ Hproc].
    exists (Z.to_nat (to_check s - 1)), (Z.to_nat q), old, new. eexists.
    replace (S (Z.to_nat (to_check s - 1))) with (Z.to_nat (to_check s)) by lia.
    rewrite PyFacts.slice_from_nonneg, PyFacts.slice_to_nonneg by lia.
    split; [reflexivity|]. split.
    { unfold state, backlog_processed. cbn. now rewrite Hproc. }
    split; [apply index_nth_error; [lia | assumption]|].
    split; [assumption|]. split; [lia|].
    split; [apply index_nth_error; [lia | assumption] | assumption].
  - destruct Hfound as (_ & v & Hv & Hvl). cbn in Hv. congruence.
  - destruct Hfound as (_ & v & Hv & Hold).
    rewrite index_newest in Hv. congruence.
Qed.

(** X3. While the backlog is not resolved, a batch whose oldest (first)
    update is dated before the start time and whose newest (last) one
    is not, whatever the dates in between, resolves the backlog and is
    cut inside: both returned lists are non-empty and split the batch,
    the last update of the backlog list is dated before the start time,
    and one of the first three updates of the list to process is dated
    at or after it. *)
Theorem fetch_boundary {Remote : Type}
    (api_call : Remote -> Z -> Z -> ApiResult * Remote)
    (timeout : Z) (self : UpdatesFetcher) (r r' : Remote)
    (u : Update) (updates : list Update) :
  let batch := u :: updates in
  api_call r (_last_id self + 1) timeout = (ApiReturn batch, r') ->
  state self = AwaitingBacklogResolution ->
  from_backlog (_started_at self) u = true ->
  from_backlog (_started_at self) (List.last batch u) = false ->
  exists to_process backlog self',
    fetch api_call timeout self r = (Return to_process backlog, self', r') /\
    state self' = BacklogResolved /\
    backlog ++ to_process = batch /\
    backlog <> [] /\
    from_backlog (_started_at self) (List.last backlog u) = true /\
    exists new,
      In new (firstn 3 to_process) /\
      from_backlog (_started_at self) new = false.
Proof.
  intros batch Hapi Hst Hfirst Hlive.
  destruct (fetch_converges api_call timeout self r r' u updates Hapi Hst Hfirst Hlive)
    as (b & q & old & new & self' & Hf & Hres & Hold & Hob & Hq & Hnew & Hnb).
  fold batch in Hf, Hold, Hnew.
  exists (skipn (S b) batch), (firstn (S b) batch), self'.
  split; [assumption|]. split; [assumption|].
  split; [apply firstn_skipn|]. split; [discriminate|]. split.
  - now rewrite (last_firstn b batch old u Hold).
  - exists new. split; [|assumption].
    apply (nth_error_firstn_in 3 _ (q - S b)); [|lia].
    rewrite nth_error_skipn. now replace (S b + (q - S b))%nat with q by lia.
Qed.

Lemma fetch_boundary_witness :
  let batch := [dated 1 0; dated 2 9; dated 3 0; dated 4 9] in
  exists to_process backlog self',
    fetch (answering (ApiReturn batch)) 1 (__init__ false 1) tt
    = (Return to_process backlog, self', tt) /\
    state self' = BacklogResolved /\
    backlog ++ to_process = batch /\
    backlog <> [] /\
    from_backlog 1 (List.last backlog (dated 1 0)) = true /\
    exists new, In new (firstn 3 to_process) /\ from_backlog 1 new = false.
Proof.
  exact (fetch_boundary
           (answering (ApiReturn [dated 1 0; dated 2 9; dated 3 0; dated 4 9])) 1
           (__init__ false 1) tt tt (dated 1 0) [dated 2 9; dated 3 0; dated 4 9]
           eq_refl eq_refl eq_refl eq_refl).
Defined.

(** X4. While the backlog is not resolved, on a batch in chronological
    order whose oldest update is dated before the start time and whose
    newest one is not, [fetch] resolves the backlog and discards no live
    update: every update of the returned backlog is dated before the
    start time.  The list to process is live from its third update on:
    at most its first two updates are dated before the start time. *)
Theorem fetch_chronological {Remote : Type}
    (api_call : Remote -> Z -> Z -> ApiResult * Remote)
    (timeout : Z) (self : UpdatesFetcher) (r r' : Remote)
    (u : Update) (updates : list Update) :
  let batch := u :: updates in
  api_call r (_last_id self + 1) timeout = (ApiReturn batch, r') ->
  state self = AwaitingBacklogResolution ->
  chronological batch ->
  from_backlog (_started_at self) u = true ->
  from_backlog (_started_at self) (List.last batch u) = false ->
  exists to_process backlog self',
    fetch api_call timeout self r = (Return to_process backlog, self', r') /\
    state self' = BacklogResolved /\
    backlog ++ to_process = batch /\
    Forall (fun v => from_backlog (_started_at self) v = true) backlog /\
    Forall (fun v => from_backlog (_started_at self) v = false) (skipn 2 to_process).
Proof.
  intros batch Hapi Hst Hch Hfirst Hlive.
  destruct (fetch_converges api_call timeout self r r' u updates Hapi Hst Hfirst Hlive)
    as (b & q & old & new & self' & Hf & Hres & Hold & Hob & Hq & Hnew & Hnb).
  fold batch in Hf, Hold, Hnew.
  exists (skipn (S b) batch), (firstn (S b) batch), self'.
  split; [assumption|]. split; [assumption|].
  split; [apply firstn_skipn|]. split.
  - apply Forall_forall. intros v Hv.
    apply in_firstn_nth in Hv as (i & Hi & Hv).
    apply PyFacts.lt_true. apply PyFacts.lt_true in Hob.
    eapply Qle_lt_trans; [|exact Hob].
    apply (chronological_nth batch i b v old); [assumption | lia | assumption..].
  - apply Forall_forall. intros v Hv. rewrite skipn_skipn in Hv.
    apply in_skipn_nth in Hv as (i & Hi & Hv).
    apply PyFacts.lt_false. apply PyFacts.lt_false in Hnb.
    eapply Qle_trans; [exact Hnb|].
    apply (chronological_nth batch q i new v); [assumption | lia | assumption..].
Qed.

Lemma fetch_chronological_witness :
  let batch := [dated 1 0; dated 2 0; dated 3 0; dated 4 0; dated 5 9] in
  exists to_process backlog self',
    fetch (answering (ApiReturn batch)) 1 (__init__ false 1) tt
    = (Return to_process backlog, self', tt) /\
    state self' = BacklogResolved /\
    backlog ++ to_process = batch /\
    Forall (fun v => from_backlog 1 v = true) backlog /\
    Forall (fun v => from_backlog 1 v = false) (skipn 2 to_process).
Proof.
  refine (fetch_chronological
            (answering (ApiReturn
               [dated 1 0; dated 2 0; dated 3 0; dated 4 0; dated 5 9])) 1
            (__init__ false 1) tt tt (dated 1 0)
            [dated 2 0; dated 3 0; dated 4 0; dated 5 9]
            eq_refl eq_refl _ eq_refl eq_refl).
  cbn. repeat split; repeat constructor; discriminate.
Defined.

(** ** A batch after the start *)

(** X5. While the backlog is not resolved, on a non-empty batch in
    which no update is dated before the start time the probe ends at
    index -1, so that [fetch] returns the newest update alone as the
    list to process and every other update of the batch as backlog, and
    the fetcher goes to BacklogResolved. *)
Theorem fetch_all_live {Remote : Type}
    (api_call : Remote -> Z -> Z -> ApiResult * Remote)
    (timeout : Z) (self : UpdatesFetcher) (r r' : Remote)
    (u : Update) (updates : list Update) :
  let batch := u :: updates in
  api_call r (_last_id self + 1) timeout = (ApiReturn batch, r') ->
  state self = AwaitingBacklogResolution ->
  Forall (fun v => from_backlog (_started_at self) v = false) batch ->
  exists self',
    fetch api_call timeout self r
    = (Return [List.last batch u] (removelast batch), self', r') /\
    state self' = BacklogResolved.
Proof.
  intros batch Hapi Hst Hall. subst batch.
  destruct (fetch_cut api_call timeout self r r' u updates Hapi Hst)
    as (why & s & Hfound & Hleft & ->). cbv zeta in *.
  rewrite Forall_forall in Hall.
  assert (Hin : forall i v, 0 <= i -> Py.index (u :: updates) i = Some v ->
                            from_backlog (_started_at self) v = false).
  { intros i v Hi Hv. apply Hall. apply index_nth_error in Hv; [|assumption].
    eapply nth_error_In; eassumption. }
  assert (Hp : 0 < Py.len (u :: updates)) by (apply PyFacts.len_pos; discriminate).
  destruct why; unfold found, left_by in Hfound, Hleft.
  - destruct Hfound as ((old & Hold & Hpos & Hob) & _).
    apply Hin in Hold; [congruence | lia].
  - destruct Hfound as (Htc & _). destruct Hleft as [_ Hproc]. rewrite Htc.
    rewrite (slice_from_minus_1 (u :: updates) u), slice_to_minus_1 by discriminate.
    eexists. split; [reflexivity|].
    unfold state, backlog_processed. cbn. now rewrite Hproc.
  - destruct Hfound as (_ & v & Hv & Hold).
    apply Hin in Hv; [congruence | lia].
Qed.

Lemma fetch_all_live_witness :
  exists self',
    fetch (answering (ApiReturn [dated 1 5; dated 2 6; dated 3 7])) 1
      (__init__ false 1) tt
    = (Return [dated 3 7] [dated 1 5; dated 2 6], self', tt) /\
    state self' = BacklogResolved.
Proof.
  refine (fetch_all_live
            (answering (ApiReturn [dated 1 5; dated 2 6; dated 3 7])) 1
            (__init__ false 1) tt tt (dated 1 5) [dated 2 6; dated 3 7]
            eq_refl eq_refl _).
  repeat constructor.
Defined.

End SearchFacts.

(** * The fetcher across calls *)

Module PollingFacts.
Import Updates UpdatesFacts.

(** X6. Whenever [fetch] returns, the remote had answered with a batch,
    and the two returned lists split that batch: the backlog followed by
    the list to process is the batch, so that no update is lost,
    repeated or moved. *)
Theorem fetch_splits {Remote : Type}
    (api_call : Remote -> Z -> Z -> ApiResult * Remote)
    (timeout : Z) (self : UpdatesFetcher) (r : Remote)
    (to_process backlog : list Update) :
  fst (fst (fetch api_call timeout self r)) = Return to_process backlog ->
  fst (api_call r (_last_id self + 1) timeout) = ApiReturn (backlog ++ to_process).
Proof.
  unfold fetch.
  destruct (api_call r (_last_id self + 1) timeout) as [[updates|[|]] r'];
    cbn [fst]; try discriminate.
  match goal with
  | |- context [if ?b then _ else _] => destruct b
  end.
  - intros H. injection H as <- <-. reflexivity.
  - destruct updates as [|u updates].
    + intros H. injection H as <- <-. reflexivity.
    + destruct (while_true _ _ _ _) as [[s|why s|]|]; try discriminate.
      intros H. injection H as <- <-. now rewrite PyFacts.slice_to_from.
Qed.

Lemma fetch_splits_witness :
  fst (answering (ApiReturn [dated 1 0; dated 2 5]) tt (-1 + 1) 1)
  = ApiReturn ([dated 1 0] ++ [dated 2 5]).
Proof.
  exact (fetch_splits (answering (ApiReturn [dated 1 0; dated 2 5])) 1
           (__init__ false 1) tt [dated 2 5] [dated 1 0] eq_refl).
Defined.

(** X7. Once the backlog is resolved (in particular from the start
    when the bot asks for its backlog to be processed), [fetch] returns
    every batch whole as the list to process with an empty backlog,
    stays in BacklogResolved, and moves its cursor to the id of the last
    update of the batch (or leaves it on an empty batch). *)
Theorem fetch_resolved {Remote : Type}
    (api_call : Remote -> Z -> Z -> ApiResult * Remote)
    (timeout : Z) (self : UpdatesFetcher) (r r' : Remote) (updates : list Update) :
  state self = BacklogResolved ->
  api_call r (_last_id self + 1) timeout = (ApiReturn updates, r') ->
  exists self',
    fetch api_call timeout self r = (Return updates [], self', r') /\
    state self' = BacklogResolved /\
    _started_at self' = _started_at self /\
    _last_id self' = match updates with
                     | [] => _last_id self
                     | u :: _ => update_id (List.last updates u)
                     end.
Proof.
  intros Hst Hapi.
  assert (Hbp : _backlog_processed self = true).
  { unfold state, backlog_processed in Hst.
    destruct (_backlog_processed self); [reflexivity | discriminate]. }
  unfold fetch. rewrite Hapi.
  destruct updates as [|u updates].
  - cbn. rewrite Hbp. eexists. split; [reflexivity|].
    repeat split. unfold state, backlog_processed. now rewrite Hbp.
  - rewrite (PyFacts.index_last (u :: updates) u) by discriminate.
    cbn [set_last_id _backlog_processed]. rewrite Hbp.
    eexists. split; [reflexivity|]. repeat split.
    unfold state, backlog_processed. cbn. now rewrite Hbp.
Qed.

Lemma fetch_resolved_witness :
  exists self',
    fetch (answering (ApiReturn [dated 4 0; dated 6 5])) 1 (__init__ true 1) tt
    = (Return [dated 4 0; dated 6 5] [], self', tt) /\
    state self' = BacklogResolved /\
    _started_at self' = 1%Q /\
    _last_id self' = 6.
Proof.
  exact (fetch_resolved (answering (ApiReturn [dated 4 0; dated 6 5])) 1
           (__init__ true 1) tt tt [dated 4 0; dated 6 5] eq_refl eq_refl).
Defined.

(** One call keeps the start time, and does not leave BacklogResolved. *)
Lemma fetch_keeps {Remote : Type} (api_call : Remote -> Z -> Z -> ApiResult * Remote)
    timeout self (r : Remote) :
  let self' := snd (fst (fetch api_call timeout self r)) in
  _started_at self' = _started_at self /\
  (_backlog_processed self = true -> _backlog_processed self' = true).
Proof.
  unfold fetch.
  destruct (api_call r (_last_id self + 1) timeout) as [[updates|[|]] r'];
    cbn [fst snd]; try (split; [reflexivity | auto]).
  assert (E : _started_at
                match Py.index updates (-1) with
                | Some u => set_last_id self (update_id u)
                | None => self
                end = _started_at self /\
              _backlog_processed
                match Py.index updates (-1) with
                | Some u => set_last_id self (update_id u)
                | None => self
                end = _backlog_processed self).
  { destruct (Py.index updates (-1)); split; reflexivity. }
  destruct E as [E1 E2].
  match goal with
  | |- context [if ?b then _ else _] => destruct b eqn:Hb
  end.
  - cbn [fst snd]. split; [assumption | intros _; assumption].
  - rewrite E2 in Hb. split; [|congruence].
    destruct updates as [|u updates]; [exact E1|].
    destruct (while_true _ _ _ _) as [[s|why s|]|]; exact E1.
Qed.

(** X8. Along every sequence of [fetch] calls, whatever the remote
    answers or raises: the start time of the fetcher never changes, no
    call leaves BacklogResolved, and from a fetcher in BacklogResolved
    every call ends in BacklogResolved. *)
Theorem resolved_is_terminal {Remote : Type}
    (api_call : Remote -> Z -> Z -> ApiResult * Remote)
    (timeouts : list Z) (self : UpdatesFetcher) (r : Remote * list Request) :
  let rounds := poll api_call timeouts self r in
  Forall (fun rd =>
            _started_at (before rd) = _started_at self /\
            _started_at (after rd) = _started_at self /\
            (state (before rd) = BacklogResolved ->
             state (after rd) = BacklogResolved)) rounds /\
  (state self = BacklogResolved ->
   Forall (fun rd => state (after rd) = BacklogResolved) rounds).
Proof.
  cbv zeta.
  assert (Hflag : forall f, state f = BacklogResolved <-> _backlog_processed f = true).
  { intros f. unfold state, backlog_processed.
    destruct (_backlog_processed f); split; congruence. }
  revert self r. induction timeouts as [|t timeouts IH]; intros self r.
  - split; constructor.
  - cbn [poll].
    pose proof (fetch_keeps (logging api_call) t self r) as [Ht Hf].
    destruct (fetch (logging api_call) t self r) as [[out self'] r1].
    cbn [fst snd] in Ht, Hf.
    destruct (IH self' r1) as [IH1 IH2]. split.
    + constructor.
      * cbn [before after]. rewrite !Hflag. auto.
      * rewrite <- Ht. exact IH1.
    + intros Hst. apply Hflag in Hst. specialize (Hf Hst).
      constructor; [cbn [after]; now apply Hflag|].
      apply IH2. now apply Hflag.
Qed.

End PollingFacts.

(** * More about the components *)

Module RegistryFacts.
Import Components ComponentsFacts.

Local Open Scope string_scope.

(** ** Failing registrations *)

(** X9. A registration raises exactly when its [func] is not callable
    or, for [add_command], when the name is already registered in the
    component; a taken name is reported by [NameError] even when [func]
    is not callable as well, [NameError] is raised by [add_command]
    only, and a registration that raises leaves the component as it
    was. *)
Theorem register_raises (g : Registration) (self : Component) :
  let '(self', e) := register g self in
  let taken :=
    match command_of g with
    | Some name => contains (_get_commands self) name
    | None => false
    end in
  (e = None <-> callable (func_of g) = true /\ taken = false) /\
  (DuplicateCommand_raised e <-> taken = true) /\
  (e <> None -> self' = self).
Proof.
  unfold register, add_before_processing_hook, add_process_message_hook,
    add_message_contains_hook, add_message_matches_hook, add_command,
    DuplicateCommand_raised, _get_commands.
  destruct g as [[f|o]|[f|o]|[f|o] ? ? ?|[f|o] ? ? ?|[f|o] n]; cbn;
    try destruct (contains (__commands self) n);
    (split; [split; [intros H; try discriminate; now split
                    | intros [H1 H2]; try discriminate; reflexivity]
            | split; [split; [intros (msg & H); discriminate || reflexivity
                             | intros H; try discriminate; eexists; reflexivity]
                     | intros H; try reflexivity; now contradiction H]]).
Qed.

(** ** The commands of a component *)

Lemma getitem_app d d' name :
  getitem (d ++ d') name
  = match getitem d name with Some v => Some v | None => getitem d' name end.
Proof.
  induction d as [|[k v] d IH]; [reflexivity|].
  cbn. destruct (String.eqb k name); [reflexivity | exact IH].
Qed.

Lemma contains_getitem d name :
  contains d name = true <-> getitem d name <> None.
Proof.
  induction d as [|[k v] d IH]; cbn; [split; [discriminate | congruence]|].
  destruct (String.eqb k name); cbn; [split; [discriminate | reflexivity] | exact IH].
Qed.

Lemma contains_in d name :
  contains d name = true <-> In name (map fst d).
Proof.
  induction d as [|[k v] d IH]; cbn; [split; [discriminate | contradiction]|].
  rewrite orb_true_iff, IH. destruct (String.eqb_spec k name); intuition congruence.
Qed.

(** What [add_command] does to the dict: nothing, or a new last key. *)
Lemma register_commands g self :
  __commands (fst (register g self)) = __commands self \/
  exists name func,
    g = AddCommand (Fn func) name /\
    contains (__commands self) name = false /\
    __commands (fst (register g self)) = (__commands self ++ [(name, func)])%list.
Proof.
  destruct g as [[f|o]|[f|o]|[f|o] ? ? ?|[f|o] ? ? ?|[f|o] n]; cbn; auto;
    unfold add_command; destruct (contains (__commands self) n) eqn:E; cbn; auto.
  right. exists n, f. rewrite setitem_new by assumption. auto.
Qed.

Lemma register_all_cons g gs self :
  fst (register_all (g :: gs) self) = fst (register_all gs (fst (register g self))).
Proof.
  cbn [register_all]. destruct (register g self) as [self1 e]. cbn [fst].
  destruct (register_all gs self1). reflexivity.
Qed.

Lemma register_all_nodup gs self :
  NoDup (map fst (__commands self)) ->
  NoDup (map fst (__commands (fst (register_all gs self)))).
Proof.
  revert self. induction gs as [|g gs IH]; intros self H; [exact H|].
  rewrite register_all_cons. apply IH.
  destruct (register_commands g self) as [->|(n & f & _ & Hnew & ->)]; [exact H|].
  rewrite map_app. cbn [map fst]. apply NoDup_app; [assumption | repeat constructor; auto |].
  intros x Hx [<-|[]]. apply contains_in in Hx. congruence.
Qed.

Lemma register_all_lookup gs self name :
  getitem (__commands (fst (register_all gs self))) name
  = match getitem (__commands self) name with
    | Some v => Some v
    | None => getitem (commands_of gs) name
    end.
Proof.
  revert self. induction gs as [|g gs IH]; intros self.
  - cbn. now destruct (getitem (__commands self) name).
  - rewrite register_all_cons, IH.
    destruct (register_commands g self) as [E|(n & f & -> & Hnew & E)]; rewrite E.
    + destruct (getitem (__commands self) name) eqn:Hg; [reflexivity|].
      destruct g as [o|o|o ? ? ?|o ? ? ?|[f|o] n]; try reflexivity.
      cbn [commands_of flat_map app getitem].
      destruct (String.eqb_spec n name) as [->|_]; [|reflexivity].
      exfalso. unfold register, add_command in E.
      destruct (contains (__commands self) name) eqn:Hc.
      * apply contains_getitem in Hc. congruence.
      * cbn in E. rewrite setitem_new in E by assumption.
        apply (f_equal (@List.length _)) in E. rewrite length_app in E.
        cbn in E. lia.
    + rewrite getitem_app. cbn [commands_of flat_map app getitem].
      destruct (getitem (__commands self) name); [reflexivity|].
      destruct (String.eqb n name); reflexivity.
Qed.

(** X10. For every sequence of registrations on a component without
    commands, whatever names it repeats, the command names of the
    component are pairwise distinct and each name goes with the first
    callable registered under it: a later registration under the same
    name never replaces it. *)
Theorem first_registration_wins (gs : list Registration) (self : Component) :
  _get_commands self = [] ->
  let self' := fst (register_all gs self) in
  NoDup (map fst (_get_commands self')) /\
  forall name,
    getitem (_get_commands self') name = getitem (commands_of gs) name.
Proof.
  unfold _get_commands. intros Hfresh. cbv zeta. split.
  - apply register_all_nodup. rewrite Hfresh. constructor.
  - intros name. rewrite register_all_lookup, Hfresh. reflexivity.
Qed.

Lemma first_registration_wins_witness :
  let start := Def "start" 0 in
  let other := Def "other" 1 in
  let gs := [AddCommand (Other "none") "start"; AddCommand (Fn start) "start";
             AddCommand (Fn other) "start"] in
  let self' := fst (register_all gs (__init__ "Component" None None)) in
  NoDup (map fst (_get_commands self')) /\
  forall name,
    getitem (_get_commands self') name = getitem (commands_of gs) name.
Proof.
  exact (first_registration_wins
           [AddCommand (Other "none") "start";
            AddCommand (Fn (Def "start" 0)) "start";
            AddCommand (Fn (Def "other" 1)) "start"]
           (__init__ "Component" None None) eq_refl).
Defined.

Lemma register_all_commands_grow gs self :
  exists added,
    __commands (fst (register_all gs self)) = (__commands self ++ added)%list.
Proof.
  revert self. induction gs as [|g gs IH]; intros self.
  - exists []. cbn. now rewrite app_nil_r.
  - rewrite register_all_cons. destruct (IH (fst (register g self))) as (added & ->).
    destruct (register_commands g self) as [->|(n & f & _ & _ & ->)].
    + now exists added.
    + exists ((n, f) :: added). now rewrite <- app_assoc.
Qed.

(** X11. From any state of a component, a sequence of registrations
    only appends: the before hooks and the message hooks of the calls
    are added after those already there, in the order of the calls, the
    commands already there keep their place before the new ones, and
    the name of the component does not change. *)
Theorem registrations_append (gs : list Registration) (self : Component) :
  let self' := fst (register_all gs self) in
  component_name self' = component_name self /\
  __before_processors self' = (__before_processors self ++ before_hooks_of gs)%list /\
  __processors self' = (__processors self ++ message_hooks_of gs)%list /\
  exists added, _get_commands self' = (_get_commands self ++ added)%list.
Proof.
  cbv zeta. destruct (register_all_hooks gs self) as (Hn & Hb & Hp).
  repeat split; try assumption. apply register_all_commands_grow.
Qed.

(** ** Command hooks *)

Lemma base_fires {W : Type} (bot : Bot W) name func chat message w w' :
  base name func bot chat message w = Returned (Some true) w' ->
  exists t, text message = Some t /\ _commands_re bot t = Some name.
Proof.
  unfold base. destruct (text message) as [t|]; [|discriminate].
  destruct (_commands_re bot t) as [g1|] eqn:E; [|discriminate].
  destruct (String.eqb_spec g1 name) as [->|_]; [|discriminate].
  intros _. eauto.
Qed.

(** The command hook of [name] does nothing on any other message:
    when the message has no text, or the command pattern of the bot
    does not match its text with that name, the hook returns [None] and
    makes no call. *)
Theorem command_hook_ignores {W : Type} (bot : Bot W) (name : string)
    (func : Callable) (chat : Chat) (message : Message) (w : W) :
  (forall t, text message = Some t -> _commands_re bot t <> Some name) ->
  base name func bot chat message w = Returned None w.
Proof.
  intros H. unfold base. destruct (text message) as [t|]; [|reflexivity].
  specialize (H t eq_refl).
  destruct (_commands_re bot t) as [g1|]; [|reflexivity].
  destruct (String.eqb_spec g1 name) as [->|_]; [congruence | reflexivity].
Qed.

Lemma command_hook_ignores_witness :
  base "start" (Def "start" 0) (recording commands_re) {| chat_id := 1 |}
    {| text := Some "/stop"; date := 0%Q |} []
  = Returned None [].
Proof.
  apply (command_hook_ignores (recording commands_re) "start" (Def "start" 0)
           {| chat_id := 1 |} {| text := Some "/stop"; date := 0%Q |} []).
  intros t H. injection H as <-. discriminate.
Defined.

(** X12. Whatever is registered on a new component, a message makes at
    most one of its command hooks fire: two command hooks of the chain
    that both return true on the same message are the same hook. *)
Theorem one_command_fires {W : Type} (re : Re) (bot : Bot W)
    (class_name : string) (class_component_name name : option string)
    (gs : list Registration) (chat : Chat) (message : Message) (w : W)
    (hook1 hook2 : Callable) :
  let self := fst (register_all gs (__init__ class_name class_component_name name)) in
  In hook1 (__generate_commands_processors self) ->
  In hook2 (__generate_commands_processors self) ->
  fires re bot hook1 chat message w ->
  fires re bot hook2 chat message w ->
  hook1 = hook2.
Proof.
  intros self H1 H2 F1 F2.
  assert (Hnd : NoDup (map fst (__commands self))).
  { apply register_all_nodup. constructor. }
  unfold __generate_commands_processors in H1, H2.
  apply in_map_iff in H1 as ([n1 f1] & <- & H1).
  apply in_map_iff in H2 as ([n2 f2] & <- & H2).
  destruct F1 as (run1 & w1 & B1 & R1). injection B1 as <-.
  destruct F2 as (run2 & w2 & B2 & R2). injection B2 as <-.
  apply base_fires in R1 as (t1 & T1 & M1).
  apply base_fires in R2 as (t2 & T2 & M2).
  assert (n1 = n2) as <- by congruence.
  pose proof (getitem_in _ _ _ Hnd H1). pose proof (getitem_in _ _ _ Hnd H2).
  congruence.
Qed.

Lemma one_command_fires_witness :
  Command "start" (Def "start" 0) = Command "start" (Def "start" 0).
Proof.
  refine (one_command_fires literal (recording commands_re) "Component" None None
            [AddCommand (Fn (Def "start" 0)) "start";
             AddCommand (Fn (Def "stop" 1)) "stop"]
            {| chat_id := 1 |} {| text := Some "/start now"; date := 0%Q |} []
            (Command "start" (Def "start" 0)) (Command "start" (Def "start" 0))
            (or_introl eq_refl) (or_introl eq_refl) _ _);
    (eexists; eexists; split; reflexivity).
Defined.

End RegistryFacts.

(** * More about the hooks *)

Module HooksFacts.
Import Components ComponentsFacts.

Local Open Scope string_scope.

(** ** Contains hooks *)

Lemma fold_left_ext {A B : Type} (f g : A -> B -> A) (l : list B) (a : A) :
  (forall a b, f a b = g a b) -> fold_left f l a = fold_left g l a.
Proof.
  intros H. revert a. induction l as [|b l IH]; intros a; [reflexivity|].
  cbn. now rewrite H, IH.
Qed.

(** X13. A contains hook is the matches hook of the word between word
    boundaries, a backslash and b on either side of the word in
    parentheses, with [re.IGNORECASE] exactly when [ignore_case] is
    set and with the same [multiple].  On a bot that runs closures by
    their code, and when that pattern compiles, the hook calls the
    user's function with the chat and the message alone, without the
    groups of the match, once per match (once at most unless
    [multiple]), and returns true exactly when there is a match. *)
Theorem contains_hook {W : Type} (re : Re) (bot : Bot W) (self : Component)
    (func : Callable) (string : string) (ignore_case multiple : bool)
    (compiled : pattern re) (chat : Chat) (t : String.string) (d : Q) (w : W) :
  let regex := "\b(" ++ string ++ ")\b" in
  let flags := if ignore_case then IGNORECASE else 0%Z in
  runs_wrapped bot ->
  compile re regex flags = Some compiled ->
  let message := {| text := Some t; date := d |} in
  let results := finditer re compiled t in
  let hook := Processor (Wrapped func) regex flags multiple in
  exists self' run,
    add_message_contains_hook (Fn func) string ignore_case multiple self
    = (self', None) /\
    __processors self' = (__processors self ++ [hook])%list /\
    body re hook = Some run /\
    run bot chat message w
    = Returned (Some match results with [] => false | _ => true end)
        (fold_left
           (fun w _ => snd (_call bot func [AChat chat; AMessage message] w))
           (if multiple then results else firstn 1 results) w).
Proof.
  intros regex flags Hbot Hc message results hook.
  pose proof (processor_calls re bot (Wrapped func) regex flags multiple compiled
                chat t d w Hc) as E.
  cbv zeta in E. subst message results hook.
  do 2 eexists. split; [reflexivity|]. split; [reflexivity|].
  split; [reflexivity|].
  rewrite E. f_equal.
  apply fold_left_ext. intros a result. now rewrite Hbot.
Qed.

Lemma running_runs_wrapped commands_re : runs_wrapped (running commands_re).
Proof. intros func chat message matches w. reflexivity. Defined.

Lemma contains_hook_witness :
  let f := Def "on_cat" 0 in
  let chat := {| chat_id := 1 |} in
  let message :=
    {| text := Some "a cat sat on a Cat, concatenate cat"; date := 0%Q |} in
  let results :=
    finditer whole_words "cat" "a cat sat on a Cat, concatenate cat" in
  let hook := Processor (Wrapped f) ("\b(" ++ "cat" ++ ")\b") 0 true in
  exists self' run,
    add_message_contains_hook (Fn f) "cat" false true (__init__ "Component" None None)
    = (self', None) /\
    __processors self'
    = (__processors (__init__ "Component" None None) ++ [hook])%list /\
    body whole_words hook = Some run /\
    run (running commands_re) chat message []
    = Returned (Some match results with [] => false | _ => true end)
        (fold_left
           (fun w _ =>
              snd (_call (running commands_re) f [AChat chat; AMessage message] w))
           (if true then results else firstn 1 results) []).
Proof.
  exact (contains_hook whole_words (running commands_re)
           (__init__ "Component" None None) (Def "on_cat" 0) "cat" false true
           "cat" {| chat_id := 1 |} "a cat sat on a Cat, concatenate cat" 0%Q []
           (running_runs_wrapped commands_re) eq_refl).
Defined.

(** ** The arguments of a command *)

Lemma split_not_nil t : split " " t <> [].
Proof.
  destruct t as [|c t]; [discriminate|]. cbn.
  destruct (Ascii.eqb c " "); [discriminate|].
  destruct (split " " t); discriminate.
Qed.

Lemma split_pieces_spaceless t :
  Forall (fun piece => spaceless piece = true) (split " " t).
Proof.
  induction t as [|c t IH]; [repeat constructor|].
  cbn [split]. destruct (Ascii.eqb c " ") eqn:Ec.
  - constructor; [reflexivity | assumption].
  - destruct (split " " t) as [|piece pieces].
    + repeat constructor. cbn. now rewrite Ec.
    + inversion IH; subst. constructor; [|assumption].
      cbn. now rewrite Ec.
Qed.

Lemma concat_split t : String.concat " " (split " " t) = t.
Proof.
  induction t as [|c t IH]; [reflexivity|].
  cbn [split]. pose proof (split_not_nil t) as Hne.
  destruct (Ascii.eqb_spec c " ") as [->|_].
  - destruct (split " " t) as [|piece pieces]; [contradiction|].
    cbn [String.concat] in *. now rewrite IH.
  - destruct (split " " t) as [|piece [|piece' pieces]]; [contradiction| |].
    + cbn in *. now rewrite IH.
    + cbn [String.concat append] in *. now rewrite IH.
Qed.

(** X14. When a command hook fires, nothing of the text is lost in the
    arguments: the text is a first piece (the command token) and the
    arguments handed to the function, joined by single spaces, and
    neither that piece nor any argument contains a space. *)
Theorem command_arguments {W : Type} (bot : Bot W) (name : string)
    (func : Callable) (chat : Chat) (t : string) (d : Q) (w : W) :
  _commands_re bot t = Some name ->
  let message := {| text := Some t; date := d |} in
  exists token args,
    base name func bot chat message w
    = Returned (Some true)
        (snd (_call bot func [AChat chat; AMessage message; AArgs args] w)) /\
    String.concat " " (token :: args) = t /\
    spaceless token = true /\
    Forall (fun a => spaceless a = true) args.
Proof.
  intros Hm message.
  pose proof (split_not_nil t) as Hne.
  pose proof (split_pieces_spaceless t) as Hsp.
  pose proof (concat_split t) as Hcat.
  destruct (split " " t) as [|token args] eqn:E; [contradiction|].
  exists token, args. apply Forall_cons_iff in Hsp as [Ht Ha].
  repeat split; try assumption.
  subst message. rewrite (base_calls bot name func chat t d w Hm), E. reflexivity.
Qed.

Lemma command_arguments_witness :
  let message := {| text := Some "/start  a b "; date := 0%Q |} in
  exists token args,
    base "start" (Def "start" 0) (recording commands_re) {| chat_id := 1 |} message []
    = Returned (Some true)
        (snd (_call (recording commands_re) (Def "start" 0)
                [AChat {| chat_id := 1 |}; AMessage message; AArgs args] [])) /\
    String.concat " " (token :: args) = "/start  a b " /\
    spaceless token = true /\
    Forall (fun a => spaceless a = true) args.
Proof.
  exact (command_arguments (recording commands_re) "start" (Def "start" 0)
           {| chat_id := 1 |} "/start  a b " 0%Q [] eq_refl).
Defined.

(** ** The details of the hooks *)



End HooksFacts.
